(** * mshadow: the tensor expression engine (tensor_expr_engine-inl.hpp)

    A shallow embedding of the expression-to-execution pipeline of
    [mshadow::expr]: the plans ([Plan], [MakePlan]), the static device/rank
    check ([TypeCheck]), the run-time shape check ([ShapeCheck]), the
    expression engine ([ExpEngine::Eval]) and the dot engine
    ([DotEngine::Eval]).

    Conventions.
    - [real_t] is kept abstract: the engine never inspects a value, it only
      moves values around and hands them to the operators [OP::Map].
    - [index_t] is an unsigned machine integer; it is a [Z] together with
      the wrap-around of its arithmetic ([index_wrap]).  Its width is fixed
      in tensor.h and is a parameter here.
    - A pointer [real_t*] is the address of a cell, counted in cells; the
      memory is a total map from addresses to values. *)

From Stdlib Require Import ZArith Lia String.
From stdpp Require Import base tactics option functions numbers list.

Local Open Scope Z_scope.

(** ** Static tags *)

(** The two device tags of the library. *)
Inductive Device : Type := cpu | gpu.

Global Instance Device_eq_dec : EqDecision Device.
Proof. solve_decision. Defined.

(** The expression classes named by the engine, [type::kMapper] and
    [type::kContainer]. *)
Inductive ExpType : Type := kMapper | kContainer.

(** The backend's enumerations. *)
Inductive CBLAS_LAYOUT : Type := CblasRowMajor | CblasColMajor.
Inductive CBLAS_TRANSPOSE : Type := CblasNoTrans | CblasTrans.

(** ** Shapes and tensors *)

(** [Shape<dim>]: the extents [shape_[0..dim-1]] and the row stride. *)
Record Shape : Type := MkShape {
  shape_ : list Z;
  stride_ : Z
}.

(** [s[i]], the extent of dimension [i]. *)
Definition Shape_at (s : Shape) (i : nat) : Z := default 0 (shape_ s !! i).

(** Modelled from the spec: [Shape<dim>::operator==] is declared in tensor.h.
    Two shapes are equal when their per-dimension extents are equal. *)
Definition Shape_eq (a b : Shape) : bool := bool_decide (shape_ a = shape_ b).

(** [Tensor<Device,dim>]: the static device and rank, the base pointer and
    the shape. *)
Record Tensor : Type := MkTensor {
  device : Device;
  dim : Z;
  dptr : Z;
  shape : Shape
}.

Section Engine.

(** The element type. *)
Context {real_t : Type}.

(** The width of [index_t], in bits. *)
Variable index_bits : Z.

(** The literal [0] at type [real_t]. *)
Variable real_zero : real_t.

(** ** Index arithmetic *)

Definition index_wrap (z : Z) : Z := z mod 2 ^ index_bits.
Definition index_mul (a b : Z) : Z := index_wrap (a * b).
Definition index_add (a b : Z) : Z := index_wrap (a + b).

(** ** Memory *)

Definition Mem : Type := Z → real_t.

(** [p[i]] for a pointer [p] and an index [i]. *)
Definition deref (m : Mem) (p : Z) (i : Z) : real_t := m (p + i).

(** ** Expressions

    The elementwise expression types: [ScalarExp], a tensor used as an
    expression ([ContainerExp<Tensor<Device,dim>>]), [UnaryMapExp] and
    [BinaryMapExp].  An operator type [OP] is represented by its static
    member [OP::Map]. *)
Inductive Exp : Type :=
| ScalarExp (scalar_ : real_t)
| TensorExp (self : Tensor)
| UnaryMapExp (OP_Map : real_t → real_t) (src_ : Exp) (etype : ExpType)
| BinaryMapExp (OP_Map : real_t → real_t → real_t) (lhs_ rhs_ : Exp)
               (etype : ExpType).

(** [DotExp<Tensor<Device,ldim>,Tensor<Device,rdim>,ltrans,rtrans>]. *)
Record DotExp : Type := MkDotExp {
  lhs_ : Tensor;
  rhs_ : Tensor;
  ltrans : bool;
  rtrans : bool;
  scale_ : real_t
}.

(** ** Plans *)

(** The specialisations of [Plan<ExpType>], with their private fields. *)
Inductive Plan : Type :=
| Plan_Tensor (dptr_ : Z) (stride_ : Z)
| Plan_ScalarExp (scalar_ : real_t)
| Plan_BinaryMapExp (OP_Map : real_t → real_t → real_t) (lhs_ rhs_ : Plan)
| Plan_UnaryMapExp (OP_Map : real_t → real_t) (src_ : Plan).

(** [Plan::Eval(y, x)], reading the memory [m]. *)
Fixpoint Plan_Eval (m : Mem) (p : Plan) (y x : Z) : real_t :=
  match p with
  | Plan_Tensor dptr_ stride_ =>
      deref m dptr_ (index_add (index_mul y stride_) x)
  | Plan_ScalarExp scalar_ => scalar_
  | Plan_BinaryMapExp OP_Map lhs_ rhs_ =>
      OP_Map (Plan_Eval m lhs_ y x) (Plan_Eval m rhs_ y x)
  | Plan_UnaryMapExp OP_Map src_ => OP_Map (Plan_Eval m src_ y x)
  end.

(** The overloads of [MakePlan]. *)
Fixpoint MakePlan (e : Exp) : Plan :=
  match e with
  | ScalarExp scalar_ => Plan_ScalarExp scalar_
  | TensorExp t => Plan_Tensor (dptr t) (stride_ (shape t))
  | UnaryMapExp OP_Map src_ _ => Plan_UnaryMapExp OP_Map (MakePlan src_)
  | BinaryMapExp OP_Map lhs_ rhs_ _ =>
      Plan_BinaryMapExp OP_Map (MakePlan lhs_) (MakePlan rhs_)
  end.

(** ** The static device/rank check *)

(** [TypeCheck<Device,dim,E>::kPass].  The specialisation for
    [Tensor<Device,dim>] is chosen exactly when the tensor's device and
    rank are the target's; any other tensor type falls to the primary
    template, whose [kPass] is [false]. *)
Fixpoint TypeCheck_kPass (Dev : Device) (d : Z) (e : Exp) : bool :=
  match e with
  | ScalarExp _ => true
  | TensorExp t => bool_decide (device t = Dev ∧ dim t = d)
  | UnaryMapExp _ TA _ => TypeCheck_kPass Dev d TA
  | BinaryMapExp _ TA TB _ =>
      TypeCheck_kPass Dev d TA && TypeCheck_kPass Dev d TB
  end.

(** ** The run-time shape check *)

(** [ShapeCheck<dim>::Check(exp, shape)]. *)
Fixpoint ShapeCheck_Check (exp : Exp) (s : Shape) : bool :=
  match exp with
  | ScalarExp _ => true
  | TensorExp t => Shape_eq (shape t) s
  | UnaryMapExp _ src_ _ => ShapeCheck_Check src_ s
  | BinaryMapExp _ lhs_ rhs_ _ =>
      ShapeCheck_Check lhs_ s && ShapeCheck_Check rhs_ s
  end.

(** ** Machine state and commands

    A run of the engine acts on the memory and calls its collaborators.
    The state keeps the memory together with the calls made so far, in
    order.  A command either completes or ends the program with a fatal
    error; a fatal outcome keeps the state at the moment of the error. *)

(** The arguments of one call of [cblas_sgemm], named as in its prototype. *)
Record GemmArgs : Type := MkGemmArgs {
  sgemm_Layout : CBLAS_LAYOUT;
  sgemm_TransA : CBLAS_TRANSPOSE;
  sgemm_TransB : CBLAS_TRANSPOSE;
  sgemm_M : Z;
  sgemm_N : Z;
  sgemm_K : Z;
  sgemm_alpha : real_t;
  sgemm_A : Z;
  sgemm_lda : Z;
  sgemm_B : Z;
  sgemm_ldb : Z;
  sgemm_beta : real_t;
  sgemm_C : Z;
  sgemm_ldc : Z
}.

Inductive Call : Type :=
| Call_ShapeCheck (exp : Exp) (s : Shape)
| Call_MakePlan (e : Exp)
| Call_MapPlan (dst : Tensor) (plan : Plan)
| Call_cblas_sgemm (a : GemmArgs).

Record State : Type := MkState {
  mem : Mem;
  calls : list Call
}.

Inductive Outcome : Type :=
| Done (s : State)
| Fatal (msg : string) (s : State).

Definition Cmd : Type := State → Outcome.

Definition and_then (c1 c2 : Cmd) : Cmd :=
  λ s, match c1 s with
       | Done s' => c2 s'
       | Fatal msg s' => Fatal msg s'
       end.

Local Notation "c1 ;; c2" := (and_then c1 c2)
  (at level 100, c2 at level 200, right associativity).

(** Record a call. *)
Definition call (c : Call) : Cmd :=
  λ s, Done {| mem := mem s; calls := calls s ++ [c] |}.

(** Update the memory. *)
Definition store (f : Mem → Mem) : Cmd :=
  λ s, Done {| mem := f (mem s); calls := calls s |}.

(** Modelled from the spec: [utils::Assert] is defined outside this file.
    A failed assertion is fatal: it ends the call with the error named by
    its message. *)
Definition utils_Assert (exp : bool) (msg : string) : Cmd :=
  λ s, if exp then Done s else Fatal msg s.

(** The message of the shape assertion; the spec calls this error
    IncompatibleShape. *)
Definition IncompatibleShape : string :=
  "shape of Tensors in expression is not consistent with target".

(** ** The per-coordinate executor *)

(** A saver policy [SV]: how the old cell and the computed value combine
    into the value written. *)
Definition Saver : Type := real_t → real_t → real_t.

(** Modelled from the spec: [Tensor::operator[]] is declared in tensor.h.
    The cell [t[y][x]] lies at [dptr[y*stride + x]], the addressing used by
    the plan of a tensor. *)
Definition Tensor_cell (t : Tensor) (y x : Z) : Z :=
  dptr t + index_add (index_mul y (stride_ (shape t))) x.

(** The coordinates of a destination, in the order in which the executor
    visits them.  The order is the executor's own business and stays a
    parameter. *)
Variable MapPlan_coords : Tensor → list (Z * Z).

(** Modelled from the spec: the executor's write at the coordinate [c],
    [SV.Combine(dst[y][x], plan.Eval(y,x))]. *)
Definition MapPlan_step (SV : Saver) (dst : Tensor) (plan : Plan)
    (m : Mem) (c : Z * Z) : Mem :=
  <[Tensor_cell dst c.1 c.2 :=
      SV (m (Tensor_cell dst c.1 c.2)) (Plan_Eval m plan c.1 c.2)]> m.

(** Modelled from the spec: [MapPlan<SV>(dst, plan)] is defined outside
    this file.  It iterates over every coordinate of [dst] and writes
    [SV.Combine(dst[y][x], plan.Eval(y,x))]. *)
Definition MapPlan (SV : Saver) (dst : Tensor) (plan : Plan) : Cmd :=
  call (Call_MapPlan dst plan) ;;
  store (λ m, foldl (MapPlan_step SV dst plan) m (MapPlan_coords dst)).

(** ** The dot engine *)

(** The width, in bits, of the [int] in which [cblas_sgemm] takes its
    extents and leading dimensions (its prototype is in mkl_cblas.h). *)
Variable int_bits : Z.

(** An [index_t] value passed for an [int] parameter: kept when [int]
    represents it, reduced modulo [2^int_bits] into the range of [int]
    otherwise. *)
Definition int_of_index (z : Z) : Z :=
  (z + 2 ^ (int_bits - 1)) mod 2 ^ int_bits - 2 ^ (int_bits - 1).

(** An extent held in an [index_t] variable and then passed as [int]. *)
Definition index_as_int (z : Z) : Z := int_of_index (index_wrap z).

(** What a call of the backend does: it returns with a new memory, or it
    crashes with a message of its own, leaving some memory behind.  The
    engine checks no dimension before the call and leaves illegal ones to
    the backend. *)
Inductive BackendResult : Type :=
| Computed (m : Mem)
| Crashed (msg : string) (m : Mem).

(** The backend's [cblas_sgemm]. *)
Variable cblas_sgemm : GemmArgs → Mem → BackendResult.

(** One call of [cblas_sgemm]: the call is made, and its result is the
    outcome. *)
Definition call_cblas_sgemm (a : GemmArgs) : Cmd :=
  λ s, match cblas_sgemm a (mem s) with
       | Computed m' =>
           Done {| mem := m'; calls := calls s ++ [Call_cblas_sgemm a] |}
       | Crashed msg m' =>
           Fatal msg {| mem := m'; calls := calls s ++ [Call_cblas_sgemm a] |}
       end.

(** [DotEngine<cpu,2,2,2,ltrans,rtrans>::Eval].  The extents and leading
    dimensions are [index_t] variables, passed to [int] parameters. *)
Definition DotEngine_cpu_2_2_2 (ltrans rtrans : bool)
    (dst lhs rhs : Tensor) (scale : real_t) : Cmd :=
  let op_lhs := if ltrans then CblasTrans else CblasNoTrans in
  let op_rhs := if rtrans then CblasTrans else CblasNoTrans in
  let M := index_wrap
    (if ltrans then Shape_at (shape lhs) 1 else Shape_at (shape lhs) 0) in
  let K := index_wrap
    (if ltrans then Shape_at (shape lhs) 0 else Shape_at (shape lhs) 1) in
  let N := index_wrap
    (if rtrans then Shape_at (shape rhs) 0 else Shape_at (shape rhs) 1) in
  let LDA := index_wrap
    (if ltrans then Shape_at (shape lhs) 1 else Shape_at (shape lhs) 0) in
  let LDB := index_wrap
    (if rtrans then Shape_at (shape rhs) 1 else Shape_at (shape rhs) 0) in
  call_cblas_sgemm
    {| sgemm_Layout := CblasColMajor;
       sgemm_TransA := op_lhs; sgemm_TransB := op_rhs;
       sgemm_M := int_of_index M; sgemm_N := int_of_index N;
       sgemm_K := int_of_index K;
       sgemm_alpha := scale;
       sgemm_A := dptr lhs; sgemm_lda := int_of_index LDA;
       sgemm_B := dptr rhs; sgemm_ldb := int_of_index LDB;
       sgemm_beta := real_zero;
       sgemm_C := dptr dst; sgemm_ldc := int_of_index LDA |}.

(** [DotEngine<cpu,1,1,2,false,rtrans>::Eval]: the body computes [op_rhs]
    and does nothing with it. *)
Definition DotEngine_cpu_1_1_2 (rtrans : bool)
    (dst lhs rhs : Tensor) (scale : real_t) : Cmd :=
  let op_rhs := if rtrans then CblasTrans else CblasNoTrans in
  Done.

(** [DotEngine<cpu,2,1,1,true,false>::Eval]: an empty body. *)
Definition DotEngine_cpu_2_1_1 (dst lhs rhs : Tensor) (scale : real_t) : Cmd :=
  Done.

(** [DotEngine<gpu,2,2,2,ltrans,rtrans>::Eval]: an empty body. *)
Definition DotEngine_gpu_2_2_2 (ltrans rtrans : bool)
    (dst lhs rhs : Tensor) (scale : real_t) : Cmd :=
  Done.

(** [DotEngine<gpu,1,1,2,false,rtrans>::Eval]: an empty body. *)
Definition DotEngine_gpu_1_1_2 (rtrans : bool)
    (dst lhs rhs : Tensor) (scale : real_t) : Cmd :=
  Done.

(** [DotEngine<gpu,2,1,1,true,false>::Eval]: an empty body. *)
Definition DotEngine_gpu_2_1_1 (dst lhs rhs : Tensor) (scale : real_t) : Cmd :=
  Done.

(** [DotEngine<Device,ddim,ldim,rdim,ltrans,rtrans>::Eval]: the choice of
    the specialisation.  The primary template declares [Eval] and never
    defines it, so any other combination yields no program ([None]). *)
Definition DotEngine_Eval (Dev : Device) (ddim ldim rdim : Z)
    (ltrans rtrans : bool) (dst lhs rhs : Tensor) (scale : real_t)
    : option Cmd :=
  match Dev, ddim, ldim, rdim, ltrans, rtrans with
  | cpu, 2, 2, 2, _, _ =>
      Some (DotEngine_cpu_2_2_2 ltrans rtrans dst lhs rhs scale)
  | cpu, 1, 1, 2, false, _ =>
      Some (DotEngine_cpu_1_1_2 rtrans dst lhs rhs scale)
  | cpu, 2, 1, 1, true, false =>
      Some (DotEngine_cpu_2_1_1 dst lhs rhs scale)
  | gpu, 2, 2, 2, _, _ =>
      Some (DotEngine_gpu_2_2_2 ltrans rtrans dst lhs rhs scale)
  | gpu, 1, 1, 2, false, _ =>
      Some (DotEngine_gpu_1_1_2 rtrans dst lhs rhs scale)
  | gpu, 2, 1, 1, true, false =>
      Some (DotEngine_gpu_2_1_1 dst lhs rhs scale)
  | _, _, _, _, _, _ => None
  end.

(** ** The expression engine *)

(** [ExpEngine<SV,Tensor<Device,dim>>::Eval(dst, const Exp<E,type::kMapper>&)].
    [TypeCheckPass<false>] has no member, so an expression that fails the
    static check yields no program ([None]). *)
Definition ExpEngine_Eval_kMapper (SV : Saver) (dst : Tensor) (exp : Exp)
    : option Cmd :=
  if TypeCheck_kPass (device dst) (dim dst) exp then
    Some (call (Call_ShapeCheck exp (shape dst)) ;;
          utils_Assert (ShapeCheck_Check exp (shape dst)) IncompatibleShape ;;
          call (Call_MakePlan exp) ;;
          MapPlan SV dst (MakePlan exp))
  else None.

(** [ExpEngine<SV,Tensor<Device,dim>>::Eval(dst, const Exp<E,type::kContainer>&)]. *)
Definition ExpEngine_Eval_kContainer (SV : Saver) (dst : Tensor) (exp : Exp)
    : option Cmd :=
  if TypeCheck_kPass (device dst) (dim dst) exp then
    Some (call (Call_ShapeCheck exp (shape dst)) ;;
          utils_Assert (ShapeCheck_Check exp (shape dst)) IncompatibleShape ;;
          call (Call_MakePlan exp) ;;
          MapPlan SV dst (MakePlan exp))
  else None.

(** [ExpEngine<SV,Tensor<Device,dim>>::Eval(dst, const DotExp<...>&)].
    The overload applies when both operands are tensors of the
    destination's device. *)
Definition ExpEngine_Eval_DotExp (SV : Saver) (dst : Tensor) (exp : DotExp)
    : option Cmd :=
  if bool_decide (device (lhs_ exp) = device dst
                  ∧ device (rhs_ exp) = device dst) then
    DotEngine_Eval (device dst) (dim dst) (dim (lhs_ exp)) (dim (rhs_ exp))
      (ltrans exp) (rtrans exp) dst (lhs_ exp) (rhs_ exp) (scale_ exp)
  else None.

(** The three overloads of [ExpEngine::Eval], selected by the static type
    of the expression argument. *)
Inductive EvalArg : Type :=
| Arg_kMapper (exp : Exp)
| Arg_kContainer (exp : Exp)
| Arg_DotExp (exp : DotExp).

Definition ExpEngine_Eval (SV : Saver) (dst : Tensor) (a : EvalArg)
    : option Cmd :=
  match a with
  | Arg_kMapper exp => ExpEngine_Eval_kMapper SV dst exp
  | Arg_kContainer exp => ExpEngine_Eval_kContainer SV dst exp
  | Arg_DotExp exp => ExpEngine_Eval_DotExp SV dst exp
  end.

(** [MapExp<Saver>(dst, exp)] for [exp : Exp<E,etype>]: the call resolves to
    the elementwise overload of the expression's class. *)
Definition MapExp (SV : Saver) (dst : Tensor) (etype : ExpType) (exp : Exp)
    : option Cmd :=
  match etype with
  | kMapper => ExpEngine_Eval_kMapper SV dst exp
  | kContainer => ExpEngine_Eval_kContainer SV dst exp
  end.

(** ** Reference notions for the statements *)

(** The tensor leaves of an expression, left to right. *)
Fixpoint Exp_tensors (e : Exp) : list Tensor :=
  match e with
  | ScalarExp _ => []
  | TensorExp t => [t]
  | UnaryMapExp _ src_ _ => Exp_tensors src_
  | BinaryMapExp _ lhs_ rhs_ _ => Exp_tensors lhs_ ++ Exp_tensors rhs_
  end.

(** The value of an expression at the coordinate [(y, x)], by structural
    recursion, in the words of the specification: a tensor reference is the
    element [base[y*stride + x]] (the index is computed in [index_t]), a
    scalar is its constant, a map applies its operator to the values of its
    operands at the same coordinate. *)
Fixpoint Exp_value (m : Mem) (e : Exp) (y x : Z) : real_t :=
  match e with
  | ScalarExp c => c
  | TensorExp t =>
      m (dptr t + index_add (index_mul y (stride_ (shape t))) x)
  | UnaryMapExp op a _ => op (Exp_value m a y x)
  | BinaryMapExp op a b _ => op (Exp_value m a y x) (Exp_value m b y x)
  end.

(** The cells a plan dereferences when evaluated at [(y, x)]. *)
Fixpoint Plan_cells (p : Plan) (y x : Z) : list Z :=
  match p with
  | Plan_Tensor dptr_ stride_ => [dptr_ + index_add (index_mul y stride_) x]
  | Plan_ScalarExp _ => []
  | Plan_BinaryMapExp _ lhs_ rhs_ => Plan_cells lhs_ y x ++ Plan_cells rhs_ y x
  | Plan_UnaryMapExp _ src_ => Plan_cells src_ y x
  end.

(** The inputs of one call of the executor are the same in [m1] and [m2]:
    at every visited coordinate, the cells the plan dereferences hold the
    same values, and the saver cannot tell the two destination cells
    apart (a saver that assigns ignores the old cell altogether). *)
Definition inputs_unchanged (SV : Saver) (dst : Tensor) (plan : Plan)
    (m1 m2 : Mem) : Prop :=
  ∀ c, c ∈ MapPlan_coords dst →
    (∀ a, a ∈ Plan_cells plan c.1 c.2 → m1 a = m2 a)
    ∧ (∀ v, SV (m1 (Tensor_cell dst c.1 c.2)) v
            = SV (m2 (Tensor_cell dst c.1 c.2)) v).

(** One step of an executor that writes the value of the expression. *)
Definition Exp_write (SV : Saver) (dst : Tensor) (e : Exp)
    (m : Mem) (c : Z * Z) : Mem :=
  <[Tensor_cell dst c.1 c.2 :=
      SV (m (Tensor_cell dst c.1 c.2)) (Exp_value m e c.1 c.2)]> m.

(** The transpose directive that stands for a transpose flag. *)
Definition directive (trans : bool) : CBLAS_TRANSPOSE :=
  if trans then CblasTrans else CblasNoTrans.

(** The row and column counts of a matrix operand: the engine reads
    [shape[0]] as the row count and [shape[1]] as the column count. *)
Definition rows (t : Tensor) : Z := Shape_at (shape t) 0.
Definition cols (t : Tensor) : Z := Shape_at (shape t) 1.

(** The (row, column) counts of [op(t)]: swapped exactly when the operand
    is transposed. *)
Definition op_extents (trans : bool) (t : Tensor) : Z * Z :=
  if trans then (cols t, rows t) else (rows t, cols t).

(** An extent that both [index_t] and the backend's [int] represent. *)
Definition extent_fits (z : Z) : Prop :=
  0 ≤ z < 2 ^ index_bits ∧ z < 2 ^ (int_bits - 1).

(** The state in which a command ended, completed or not. *)
Definition Outcome_state (o : Outcome) : State :=
  match o with Done s | Fatal _ s => s end.

(** The calls that belong to the elementwise path. *)
Definition Call_is_elementwise (c : Call) : bool :=
  match c with
  | Call_ShapeCheck _ _ | Call_MakePlan _ | Call_MapPlan _ _ => true
  | Call_cblas_sgemm _ => false
  end.

End Engine.

Arguments Mem : clear implicits.
Arguments Exp : clear implicits.
Arguments DotExp : clear implicits.
Arguments Plan : clear implicits.
Arguments GemmArgs : clear implicits.
Arguments Call : clear implicits.
Arguments State : clear implicits.
Arguments Outcome : clear implicits.
Arguments Cmd : clear implicits.
Arguments Saver : clear implicits.
Arguments BackendResult : clear implicits.
Arguments EvalArg : clear implicits.

(** ** Example data

    Concrete tensors over integer cells, used to run the engine.  The
    example executor visits a rank-2 destination row by row. *)

Definition row_major (t : Tensor) : list (Z * Z) :=
  y ← seqZ 0 (Shape_at (shape t) 0);
  x ← seqZ 0 (Shape_at (shape t) 1);
  [(y, x)].

(** A saver that assigns and a saver that accumulates. *)
Definition saveto : Saver Z := λ _ b, b.
Definition plusto : Saver Z := λ a b, a + b.

Definition shape_2x2 : Shape := MkShape [2; 2] 2.
Definition shape_3x4 : Shape := MkShape [3; 4] 4.
Definition shape_3x5 : Shape := MkShape [3; 5] 5.
Definition shape_2x3 : Shape := MkShape [2; 3] 3.

Definition ex_a : Tensor := MkTensor cpu 2 0 shape_2x2.
Definition ex_b : Tensor := MkTensor cpu 2 4 shape_2x2.
Definition ex_dst : Tensor := MkTensor cpu 2 8 shape_2x2.

(** [a] is all ones, [b] is all twos, every other cell is zero. *)
Definition ex_mem : Mem Z :=
  λ p, if bool_decide (0 ≤ p < 4) then 1
       else if bool_decide (4 ≤ p < 8) then 2 else 0.

Definition ex_state : State Z := MkState ex_mem [].

(** [a + b * 2]. *)
Definition ex_exp : Exp Z :=
  BinaryMapExp Z.add (TensorExp ex_a)
    (BinaryMapExp Z.mul (TensorExp ex_b) (ScalarExp 2) kMapper) kMapper.

(** A destination of shape (3,4) and an operand of shape (3,5). *)
Definition ex_dst_3x4 : Tensor := MkTensor cpu 2 100 shape_3x4.
Definition ex_src_3x5 : Tensor := MkTensor cpu 2 200 shape_3x5.
Definition ex_bad_exp : Exp Z :=
  BinaryMapExp Z.add (TensorExp ex_dst_3x4) (TensorExp ex_src_3x5) kMapper.

(** A 2x3 left operand, for the dot engine. *)
Definition ex_lhs_2x3 : Tensor := MkTensor cpu 2 0 shape_2x3.
Definition ex_vec : Tensor := MkTensor cpu 1 0 (MkShape [2] 2).

(** A backend that leaves the memory alone: enough to observe the calls. *)
Definition ex_sgemm : GemmArgs Z → Mem Z → BackendResult Z :=
  λ _ m, Computed m.

(** A backend that refuses a left leading dimension below 3. *)
Definition ex_strict_sgemm : GemmArgs Z → Mem Z → BackendResult Z :=
  λ a m, if bool_decide (sgemm_lda a < 3) then Crashed "lda" m
         else Computed m.

(** A matrix of 3000000000 rows and 2 columns. *)
Definition ex_huge : Tensor :=
  MkTensor cpu 2 0 (MkShape [3000000000; 2] 2).

Definition ex_dot : DotExp Z := MkDotExp ex_a ex_b false true 3.

(** The engine of the examples: 32-bit indices, the row-major executor. *)
Definition ex_Eval (SV : Saver Z) (dst : Tensor) (a : EvalArg Z)
    : option (Cmd Z) :=
  ExpEngine_Eval 32 0 row_major 32 ex_sgemm SV dst a.

(** The state left by [dst = a + b * 2] run from [ex_state]. *)
Definition ex_state_after : State Z :=
  match ex_Eval saveto ex_dst (Arg_kMapper ex_exp) with
  | Some cmd => match cmd ex_state with Done s | Fatal _ s => s end
  | None => ex_state
  end.

(** The same call run once more, from any state. *)
Definition ex_run (s : State Z) : State Z :=
  match ex_Eval saveto ex_dst (Arg_kMapper ex_exp) with
  | Some cmd => match cmd s with Done s' | Fatal _ s' => s' end
  | None => s
  end.

(** An expression without tensors: [- 2]. *)
Definition ex_scalar_exp : Exp Z := UnaryMapExp Z.opp (ScalarExp 2) kMapper.

(** An expression that reads its destination: [dst + b]. *)
Definition ex_inplace_exp : Exp Z :=
  BinaryMapExp Z.add (TensorExp ex_dst) (TensorExp ex_b) kMapper.

(** The two sides of a distributive law: [(a + b) * b] and [a * b + b * b]. *)
Definition ex_factored : Exp Z :=
  BinaryMapExp Z.mul
    (BinaryMapExp Z.add (TensorExp ex_a) (TensorExp ex_b) kMapper)
    (TensorExp ex_b) kMapper.
Definition ex_expanded : Exp Z :=
  BinaryMapExp Z.add
    (BinaryMapExp Z.mul (TensorExp ex_a) (TensorExp ex_b) kMapper)
    (BinaryMapExp Z.mul (TensorExp ex_b) (TensorExp ex_b) kMapper) kMapper.

(** * Properties *)

Section Properties.

Context {real_t : Type}.
Variable index_bits : Z.
Variable real_zero : real_t.
Variable MapPlan_coords : Tensor → list (Z * Z).
Variable int_bits : Z.
Variable cblas_sgemm : GemmArgs real_t → Mem real_t → BackendResult real_t.

Implicit Types (e exp : Exp real_t) (p plan : Plan real_t) (m : Mem real_t).
Implicit Types (s : State real_t) (SV : Saver real_t) (t dst lhs rhs : Tensor).
Implicit Types (y x : Z) (c : Z * Z).

Local Abbreviation cell := (Tensor_cell index_bits).
Local Abbreviation Eval_kMapper := (ExpEngine_Eval_kMapper index_bits MapPlan_coords).
Local Abbreviation Eval_kContainer :=
  (ExpEngine_Eval_kContainer index_bits MapPlan_coords).
Local Abbreviation Eval :=
  (ExpEngine_Eval index_bits real_zero MapPlan_coords int_bits cblas_sgemm).
Local Abbreviation Dot_Eval :=
  (DotEngine_Eval index_bits real_zero int_bits cblas_sgemm).
Local Abbreviation Dot_cpu_2_2_2 :=
  (DotEngine_cpu_2_2_2 index_bits real_zero int_bits cblas_sgemm).
Local Abbreviation as_int := (index_as_int index_bits int_bits).
Local Abbreviation fits := (extent_fits index_bits int_bits).

(** ** The static check *)

(** The check passes exactly when every tensor leaf has the target's device
    and rank. *)
Lemma TypeCheck_kPass_leaves (Dev : Device) (d : Z) e :
  TypeCheck_kPass Dev d e = true
  ↔ Forall (λ t, device t = Dev ∧ dim t = d) (Exp_tensors e).
Proof.
  induction e as [c|t|op a IHa k|op a IHa b IHb k]; simpl.
  - split; [constructor|done].
  - rewrite bool_decide_eq_true, Forall_singleton. done.
  - done.
  - rewrite andb_true_iff, Forall_app, IHa, IHb. done.
Qed.

(** C6: the static device/rank check is the structural fold: a scalar
    always passes, a tensor leaf passes iff its device and rank are the
    target's, a unary map passes iff its operand passes, and a binary map
    passes iff both operands pass. *)
Theorem TypeCheck_structural_fold (Dev : Device) (d : Z) :
  (∀ c : real_t, TypeCheck_kPass Dev d (ScalarExp c) = true)
  ∧ (∀ t, TypeCheck_kPass (real_t:=real_t) Dev d (TensorExp t) = true
          ↔ device t = Dev ∧ dim t = d)
  ∧ (∀ (op : real_t → real_t) e k,
        TypeCheck_kPass Dev d (UnaryMapExp op e k) = true
        ↔ TypeCheck_kPass Dev d e = true)
  ∧ (∀ (op : real_t → real_t → real_t) e1 e2 k,
        TypeCheck_kPass Dev d (BinaryMapExp op e1 e2 k) = true
        ↔ TypeCheck_kPass Dev d e1 = true ∧ TypeCheck_kPass Dev d e2 = true).
Proof.
  split; [done|]. split; [|split].
  - intros t. simpl. apply bool_decide_eq_true.
  - done.
  - intros op e1 e2 k. simpl. apply andb_true_iff.
Qed.

(** ** The shape check *)

Lemma Shape_eq_true (a b : Shape) :
  Shape_eq a b = true ↔ shape_ a = shape_ b.
Proof. unfold Shape_eq. apply bool_decide_eq_true. Qed.

(** The check passes exactly when every tensor leaf has the shape asked
    for. *)
Lemma ShapeCheck_Check_leaves e (sh : Shape) :
  ShapeCheck_Check e sh = true
  ↔ Forall (λ t, Shape_eq (shape t) sh = true) (Exp_tensors e).
Proof.
  induction e as [c|t|op a IHa k|op a IHa b IHb k]; simpl.
  - split; [constructor|done].
  - by rewrite Forall_singleton.
  - done.
  - rewrite andb_true_iff, Forall_app, IHa, IHb. done.
Qed.

(** One leaf of another shape makes the check fail. *)
Lemma ShapeCheck_Check_mismatch e (sh : Shape) t :
  t ∈ Exp_tensors e → Shape_eq (shape t) sh = false →
  ShapeCheck_Check e sh = false.
Proof.
  intros Hin Hne. apply not_true_is_false. intros Hok.
  apply ShapeCheck_Check_leaves in Hok.
  rewrite Forall_forall in Hok. specialize (Hok t Hin). congruence.
Qed.

(** C7: the run-time shape check is the structural recursion: a scalar
    matches, a tensor leaf matches iff its shape equals the destination's
    shape, a unary map matches iff its operand matches, and a binary map
    matches iff both operands match. *)
Theorem ShapeCheck_structural_recursion (sh : Shape) :
  (∀ c : real_t, ShapeCheck_Check (ScalarExp c) sh = true)
  ∧ (∀ t, ShapeCheck_Check (real_t:=real_t) (TensorExp t) sh = true
          ↔ shape_ (shape t) = shape_ sh)
  ∧ (∀ (op : real_t → real_t) e k,
        ShapeCheck_Check (UnaryMapExp op e k) sh = true
        ↔ ShapeCheck_Check e sh = true)
  ∧ (∀ (op : real_t → real_t → real_t) e1 e2 k,
        ShapeCheck_Check (BinaryMapExp op e1 e2 k) sh = true
        ↔ ShapeCheck_Check e1 sh = true ∧ ShapeCheck_Check e2 sh = true).
Proof.
  split; [done|]. split; [|split].
  - intros t. simpl. apply Shape_eq_true.
  - done.
  - intros op e1 e2 k. simpl. apply andb_true_iff.
Qed.

(** ** The elementwise path *)

(** The state after the executor has run over the destination. *)
Lemma MapPlan_run SV dst plan s :
  MapPlan index_bits MapPlan_coords SV dst plan s
  = Done {| mem := foldl (MapPlan_step index_bits SV dst plan) (mem s)
                     (MapPlan_coords dst);
            calls := calls s ++ [Call_MapPlan dst plan] |}.
Proof. reflexivity. Qed.

(** What the mapper overload does on an expression that passes the static
    check: the shape check, then either the fatal error or the plan and the
    executor. *)
Lemma Eval_kMapper_run SV dst e :
  TypeCheck_kPass (device dst) (dim dst) e = true →
  ∃ cmd, Eval_kMapper SV dst e = Some cmd ∧ ∀ s,
    cmd s =
      if ShapeCheck_Check e (shape dst) then
        Done {| mem := foldl (MapPlan_step index_bits SV dst (MakePlan e))
                         (mem s) (MapPlan_coords dst);
                calls := ((calls s ++ [Call_ShapeCheck e (shape dst)])
                            ++ [Call_MakePlan e])
                            ++ [Call_MapPlan dst (MakePlan e)] |}
      else
        Fatal IncompatibleShape
          {| mem := mem s;
             calls := calls s ++ [Call_ShapeCheck e (shape dst)] |}.
Proof.
  intros Hty. unfold ExpEngine_Eval_kMapper. rewrite Hty.
  eexists; split; [reflexivity|]. intros s.
  unfold and_then, call, utils_Assert. simpl.
  by destruct (ShapeCheck_Check e (shape dst)).
Qed.

(** ** The two elementwise overloads *)

Lemma kContainer_and_kMapper_same SV dst e :
  Eval_kContainer SV dst e = Eval_kMapper SV dst e.
Proof.
  unfold ExpEngine_Eval_kContainer, ExpEngine_Eval_kMapper.
  by destruct (TypeCheck_kPass _ _ _).
Qed.

(** C10: for every expression, the overload for container-kind
    expressions is the same program as the overload for mapper-kind
    expressions: the same static check, the same shape check with the same
    failure, the same plan and the same hand-off to the executor; hence the
    same outcome from every state. *)
Theorem kContainer_path_is_kMapper_path SV dst e :
  Eval SV dst (Arg_kContainer e) = Eval SV dst (Arg_kMapper e)
  ∧ ∀ s, (λ cmd : Cmd real_t, cmd s) <$> Eval SV dst (Arg_kContainer e)
         = (λ cmd : Cmd real_t, cmd s) <$> Eval SV dst (Arg_kMapper e).
Proof.
  pose proof (kContainer_and_kMapper_same SV dst e) as Heq.
  split; [exact Heq|]. intros s. simpl. by rewrite Heq.
Qed.

(** ** The dot engine *)

(** An extent that [index_t] and [int] both represent reaches the backend
    unchanged. *)
Lemma index_as_int_fits (z : Z) : fits z → as_int z = z.
Proof.
  intros [[H0 Hidx] Hint].
  unfold index_as_int, int_of_index, index_wrap.
  rewrite (Z.mod_small z) by lia.
  destruct (Z.le_gt_cases 1 int_bits) as [Hge|Hlt].
  - assert (2 ^ int_bits = 2 * 2 ^ (int_bits - 1)) as ->.
    { replace int_bits with (Z.succ (int_bits - 1)) at 1 by lia.
      apply Z.pow_succ_r. lia. }
    rewrite Z.mod_small by lia. lia.
  - rewrite (Z.pow_neg_r 2 (int_bits - 1)) in Hint by lia. lia.
Qed.

(** The outcome of a backend call records the call. *)
Lemma call_cblas_sgemm_calls (g : GemmArgs real_t) s :
  calls (Outcome_state (call_cblas_sgemm cblas_sgemm g s))
  = calls s ++ [Call_cblas_sgemm g].
Proof. unfold call_cblas_sgemm. by destruct (cblas_sgemm g (mem s)). Qed.

(** The call made by the host matrix-matrix kernel. *)
Lemma DotEngine_cpu_2_2_2_run (lt rt : bool) dst lhs rhs (scale : real_t) s :
  ∃ g, Dot_cpu_2_2_2 lt rt dst lhs rhs scale s
       = call_cblas_sgemm cblas_sgemm g s
     ∧ g = {| sgemm_Layout := CblasColMajor;
              sgemm_TransA := directive lt;
              sgemm_TransB := directive rt;
              sgemm_M := as_int (op_extents lt lhs).1;
              sgemm_N := as_int (op_extents rt rhs).2;
              sgemm_K := as_int (op_extents lt lhs).2;
              sgemm_alpha := scale;
              sgemm_A := dptr lhs;
              sgemm_lda := as_int (op_extents lt lhs).1;
              sgemm_B := dptr rhs;
              sgemm_ldb := as_int (op_extents rt rhs).1;
              sgemm_beta := real_zero;
              sgemm_C := dptr dst;
              sgemm_ldc := as_int (op_extents lt lhs).1 |}.
Proof.
  eexists; split; [reflexivity|].
  unfold op_extents, directive, rows, cols, index_as_int.
  by destruct lt, rt.
Qed.


(** The five remaining specialisations return at once: the state is the one
    they were called in, and no error is raised. *)
Lemma DotEngine_placeholders_return (rt lt : bool) dst lhs rhs
    (scale : real_t) s :
  DotEngine_cpu_1_1_2 rt dst lhs rhs scale s = Done s
  ∧ DotEngine_cpu_2_1_1 dst lhs rhs scale s = Done s
  ∧ DotEngine_gpu_2_2_2 lt rt dst lhs rhs scale s = Done s
  ∧ DotEngine_gpu_1_1_2 rt dst lhs rhs scale s = Done s
  ∧ DotEngine_gpu_2_1_1 dst lhs rhs scale s = Done s.
Proof. repeat split. Qed.

(** C3 (as the code behaves): every specialisation of the dot engine other
    than the host matrix-matrix one returns normally, with the memory and
    the calls as they were; none of them ends in a fatal error. *)
Theorem DotEngine_placeholders_silent (lt rt : bool) dst lhs rhs
    (scale : real_t) s :
  (λ cmd : Cmd real_t, cmd s) <$> Dot_Eval cpu 1 1 2 false rt dst lhs rhs scale
    = Some (Done s)
  ∧ (λ cmd : Cmd real_t, cmd s) <$> Dot_Eval cpu 2 1 1 true false dst lhs rhs scale
    = Some (Done s)
  ∧ (λ cmd : Cmd real_t, cmd s) <$> Dot_Eval gpu 2 2 2 lt rt dst lhs rhs scale
    = Some (Done s)
  ∧ (λ cmd : Cmd real_t, cmd s) <$> Dot_Eval gpu 1 1 2 false rt dst lhs rhs scale
    = Some (Done s)
  ∧ (λ cmd : Cmd real_t, cmd s) <$> Dot_Eval gpu 2 1 1 true false dst lhs rhs scale
    = Some (Done s).
Proof. repeat split. Qed.

(** A dot engine that exists for a combination is the host matrix-matrix
    kernel or one of the five that return at once. *)
Lemma DotEngine_Eval_cases (Dev : Device) (ddim ldim rdim : Z) (lt rt : bool)
    dst lhs rhs (scale : real_t) cmd :
  Dot_Eval Dev ddim ldim rdim lt rt dst lhs rhs scale = Some cmd →
  cmd = Dot_cpu_2_2_2 lt rt dst lhs rhs scale ∨ ∀ s, cmd s = Done s.
Proof.
  intros Hsome. unfold DotEngine_Eval in Hsome.
  repeat case_match; simplify_eq; auto.
Qed.

(** Whatever its outcome, a dot engine calls at most the backend. *)
Lemma DotEngine_Eval_calls (Dev : Device) (ddim ldim rdim : Z) (lt rt : bool)
    dst lhs rhs (scale : real_t) cmd s :
  Dot_Eval Dev ddim ldim rdim lt rt dst lhs rhs scale = Some cmd →
  ∃ new, calls (Outcome_state (cmd s)) = calls s ++ new
         ∧ Forall (λ k : Call real_t, Call_is_elementwise k = false) new.
Proof.
  intros Hsome.
  destruct (DotEngine_Eval_cases _ _ _ _ _ _ _ _ _ _ _ Hsome) as [->|Hskip].
  - destruct (DotEngine_cpu_2_2_2_run lt rt dst lhs rhs scale s) as (g & Hrun & _).
    exists [Call_cblas_sgemm g]. rewrite Hrun.
    split; [apply call_cblas_sgemm_calls|]. by repeat constructor.
  - exists []. rewrite Hskip. simpl.
    split; [by rewrite app_nil_r|constructor].
Qed.

(** A dot engine ends in a fatal error only when the backend crashes: the
    error is the backend's. *)
Lemma DotEngine_Eval_fatal (Dev : Device) (ddim ldim rdim : Z) (lt rt : bool)
    dst lhs rhs (scale : real_t) cmd s msg s' :
  Dot_Eval Dev ddim ldim rdim lt rt dst lhs rhs scale = Some cmd →
  cmd s = Fatal msg s' →
  ∃ g, cblas_sgemm g (mem s) = Crashed msg (mem s')
       ∧ calls s' = calls s ++ [Call_cblas_sgemm g].
Proof.
  intros Hsome Hfatal.
  destruct (DotEngine_Eval_cases _ _ _ _ _ _ _ _ _ _ _ Hsome) as [->|Hskip].
  - destruct (DotEngine_cpu_2_2_2_run lt rt dst lhs rhs scale s) as (g & Hrun & _).
    exists g. rewrite Hrun in Hfatal. unfold call_cblas_sgemm in Hfatal.
    destruct (cblas_sgemm g (mem s)) as [m'|msg' m']; [discriminate|].
    injection Hfatal as <- <-. by split.
  - rewrite Hskip in Hfatal. discriminate.
Qed.

(** C8: for a dot expression over tensors of the destination's device,
    the expression engine is the dot engine's [Eval] applied to the
    destination, the two operands, the transpose flags and the scale; on
    this path, whatever the outcome, no shape check is made, no plan is
    built and the executor is not called. *)
Theorem DotExp_forwarded_to_DotEngine SV dst (exp : DotExp real_t) :
  device (lhs_ exp) = device dst →
  device (rhs_ exp) = device dst →
  Eval SV dst (Arg_DotExp exp)
  = Dot_Eval (device dst) (dim dst) (dim (lhs_ exp)) (dim (rhs_ exp))
      (ltrans exp) (rtrans exp) dst (lhs_ exp) (rhs_ exp) (scale_ exp)
  ∧ ∀ cmd s, Eval SV dst (Arg_DotExp exp) = Some cmd →
      ∃ new, calls (Outcome_state (cmd s)) = calls s ++ new
             ∧ Forall (λ k : Call real_t, Call_is_elementwise k = false) new.
Proof.
  intros Hl Hr.
  assert (Eval SV dst (Arg_DotExp exp)
          = Dot_Eval (device dst) (dim dst) (dim (lhs_ exp)) (dim (rhs_ exp))
              (ltrans exp) (rtrans exp) dst (lhs_ exp) (rhs_ exp) (scale_ exp))
    as Heq.
  { simpl. unfold ExpEngine_Eval_DotExp. by rewrite bool_decide_eq_true_2. }
  split; [exact Heq|]. intros cmd s Hcmd. rewrite Heq in Hcmd.
  by eapply DotEngine_Eval_calls.
Qed.

(** ** The shape error *)

(** C4: when some tensor leaf of a (statically well-typed) elementwise
    expression has a shape other than the destination's, both elementwise
    overloads end in the fatal error IncompatibleShape; at that moment the
    memory is the initial one, so the destination is untouched, and the only
    call made is the shape check: no plan was built, nothing was handed to
    the executor or to a kernel. *)
Theorem Eval_shape_mismatch_is_fatal SV dst e t s (a : EvalArg real_t) :
  TypeCheck_kPass (device dst) (dim dst) e = true →
  t ∈ Exp_tensors e →
  Shape_eq (shape t) (shape dst) = false →
  a = Arg_kMapper e ∨ a = Arg_kContainer e →
  ∃ cmd, Eval SV dst a = Some cmd
         ∧ cmd s = Fatal IncompatibleShape
                     {| mem := mem s;
                        calls := calls s ++ [Call_ShapeCheck e (shape dst)] |}.
Proof.
  intros Hty Hin Hne Ha.
  destruct (Eval_kMapper_run SV dst e Hty) as (cmd & Hcmd & Hrun).
  exists cmd. split.
  - destruct Ha as [-> | ->]; [exact Hcmd|].
    rewrite <- Hcmd. apply kContainer_and_kMapper_same.
  - rewrite Hrun.
    by rewrite (ShapeCheck_Check_mismatch e (shape dst) t Hin Hne).
Qed.

(** ** Plans *)

Local Abbreviation step := (MapPlan_step index_bits).
Local Abbreviation Eval_at := (Plan_Eval index_bits).
Local Abbreviation cells_at := (Plan_cells index_bits).
Local Abbreviation value := (Exp_value index_bits).

(** The plan of an expression computes the value of the expression. *)
Lemma Plan_Eval_MakePlan m e y x :
  Eval_at m (MakePlan e) y x = value m e y x.
Proof.
  induction e as [k|t|op a IHa k|op a IHa b IHb k]; simpl.
  - reflexivity.
  - reflexivity.
  - by rewrite IHa.
  - by rewrite IHa, IHb.
Qed.

(** The cells of the plan of an expression are the cells of its tensor
    leaves at the coordinate. *)
Lemma Plan_cells_MakePlan e y x :
  cells_at (MakePlan e) y x = (λ t, cell t y x) <$> Exp_tensors e.
Proof.
  induction e as [k|t|op a IHa k|op a IHa b IHb k]; simpl.
  - reflexivity.
  - reflexivity.
  - exact IHa.
  - by rewrite fmap_app, IHa, IHb.
Qed.

(** A plan depends on the memory through its cells only. *)
Lemma Plan_Eval_agree p y x m m' :
  (∀ a, a ∈ cells_at p y x → m a = m' a) →
  Eval_at m p y x = Eval_at m' p y x.
Proof.
  induction p as [base stride|k|op l IHl r IHr|op a IHa]; simpl; intros Hag.
  - unfold deref. apply Hag. by apply list_elem_of_singleton.
  - reflexivity.
  - f_equal; [apply IHl|apply IHr]; intros a Ha; apply Hag;
      apply elem_of_app; auto.
  - f_equal. by apply IHa.
Qed.

(** In this index arithmetic a coordinate whose offset fits in [index_t]
    is at the offset [y * stride + x] from the base. *)
Lemma Tensor_cell_in_range t y x :
  0 ≤ y * stride_ (shape t) →
  0 ≤ x →
  y * stride_ (shape t) + x < 2 ^ index_bits →
  cell t y x = dptr t + (y * stride_ (shape t) + x).
Proof.
  intros Hy Hx Hlt. unfold Tensor_cell, index_add, index_mul, index_wrap.
  rewrite (Z.mod_small (y * _)) by lia.
  by rewrite Z.mod_small by lia.
Qed.

(** ** The executor *)

(** A step writes one cell: the destination cell of its coordinate. *)
Lemma MapPlan_step_at SV dst p m c :
  step SV dst p m c (cell dst c.1 c.2)
  = SV (m (cell dst c.1 c.2)) (Eval_at m p c.1 c.2).
Proof. unfold MapPlan_step. apply fn_lookup_insert. Qed.

Lemma MapPlan_step_other SV dst p m c a :
  a ≠ cell dst c.1 c.2 → step SV dst p m c a = m a.
Proof. intros Hne. unfold MapPlan_step. by apply fn_lookup_insert_ne. Qed.

(** With the plan of [e], a step writes the value of [e]. *)
Lemma MapPlan_step_writes_value SV dst e m c :
  step SV dst (MakePlan e) m c = Exp_write index_bits SV dst e m c.
Proof. unfold MapPlan_step, Exp_write. by rewrite Plan_Eval_MakePlan. Qed.

Lemma MapPlan_fold_writes_value SV dst e (l : list (Z * Z)) m :
  foldl (step SV dst (MakePlan e)) m l
  = foldl (Exp_write index_bits SV dst e) m l.
Proof.
  revert m. induction l as [|c l IH]; intros m; simpl; [reflexivity|].
  by rewrite MapPlan_step_writes_value, IH.
Qed.

(** The executor leaves alone every cell that is not a destination cell of
    a visited coordinate. *)
Lemma MapPlan_fold_frame SV dst p (l : list (Z * Z)) m a :
  a ∉ (λ c, cell dst c.1 c.2) <$> l →
  foldl (step SV dst p) m l a = m a.
Proof.
  revert m. induction l as [|c l IH]; intros m Hnot; simpl; [reflexivity|].
  rewrite fmap_cons, not_elem_of_cons in Hnot. destruct Hnot as [Hne Hnot].
  rewrite IH by exact Hnot. by apply MapPlan_step_other.
Qed.

(** When the visited coordinates have distinct destination cells and no
    cell read at one coordinate is the destination cell of another, the
    executor leaves in every destination cell the saver's combination of the
    initial cell and the value of the plan in the initial memory. *)
Lemma MapPlan_fold_final SV dst p (l : list (Z * Z)) m :
  NoDup ((λ c, cell dst c.1 c.2) <$> l) →
  (∀ c c' a, c ∈ l → c' ∈ l → a ∈ cells_at p c.1 c.2 →
             a = cell dst c'.1 c'.2 → c = c') →
  ∀ c, c ∈ l →
    foldl (step SV dst p) m l (cell dst c.1 c.2)
    = SV (m (cell dst c.1 c.2)) (Eval_at m p c.1 c.2).
Proof.
  induction l as [|c0 l IH] using rev_ind; intros Hnd Hsep c Hc.
  { by apply elem_of_nil in Hc. }
  rewrite fmap_app in Hnd. apply NoDup_app in Hnd as (Hnd & Hfresh & _).
  assert (cell dst c0.1 c0.2 ∉ (λ c, cell dst c.1 c.2) <$> l) as Hc0.
  { intros Hin. apply (Hfresh _ Hin). simpl. apply list_elem_of_here. }
  rewrite foldl_snoc.
  apply elem_of_app in Hc as [Hc|Hc].
  - assert (cell dst c.1 c.2 ≠ cell dst c0.1 c0.2) as Hne.
    { intros Heq. apply Hc0. rewrite <- Heq.
      by apply (list_elem_of_fmap_2 (λ c, cell dst c.1 c.2)). }
    rewrite MapPlan_step_other by exact Hne.
    apply IH; [exact Hnd| |exact Hc].
    intros c1 c2 a H1 H2. apply Hsep; apply elem_of_app; auto.
  - apply list_elem_of_singleton in Hc as ->.
    rewrite MapPlan_step_at.
    rewrite MapPlan_fold_frame by exact Hc0. f_equal.
    apply Plan_Eval_agree. intros a Ha.
    apply MapPlan_fold_frame. intros Hin.
    apply list_elem_of_fmap in Hin as (c' & -> & Hc').
    assert (c0 = c') as ->.
    { apply (Hsep c0 c' (cell dst c'.1 c'.2)); [apply elem_of_app; right; apply list_elem_of_here
                            |apply elem_of_app; by left|exact Ha|reflexivity]. }
    apply Hc0. by apply (list_elem_of_fmap_2 (λ c, cell dst c.1 c.2)).
Qed.

(** C1: for an expression that passes the static check and the shape
    check against the destination, the plan built by [MakePlan], evaluated
    at any coordinate, yields the value of the expression by structural
    recursion ([Exp_value]: the cell [base[y*stride + x]] for a tensor
    leaf, the constant for a scalar, the operator applied to the operands'
    values for a map); the engine completes, and its executor writes these
    values: the final memory is the one obtained by writing, coordinate by
    coordinate, the saver's combination of the destination cell and the
    value of the expression.  When moreover the visited coordinates have
    distinct destination cells and no leaf cell read at one coordinate is
    the destination cell of another, every destination cell ends with the
    combination of its initial content and the value of the expression in
    the initial memory. *)
Theorem MakePlan_computes_Exp_value SV dst e s :
  TypeCheck_kPass (device dst) (dim dst) e = true →
  ShapeCheck_Check e (shape dst) = true →
  NoDup ((λ c, cell dst c.1 c.2) <$> MapPlan_coords dst) →
  (∀ t c c', t ∈ Exp_tensors e →
             c ∈ MapPlan_coords dst → c' ∈ MapPlan_coords dst →
             cell t c.1 c.2 = cell dst c'.1 c'.2 → c = c') →
  (∀ m y x, Eval_at m (MakePlan e) y x = value m e y x)
  ∧ ∃ cmd s',
      Eval SV dst (Arg_kMapper e) = Some cmd
      ∧ cmd s = Done s'
      ∧ mem s' = foldl (Exp_write index_bits SV dst e) (mem s)
                   (MapPlan_coords dst)
      ∧ ∀ c, c ∈ MapPlan_coords dst →
          mem s' (cell dst c.1 c.2)
          = SV (mem s (cell dst c.1 c.2)) (value (mem s) e c.1 c.2).
Proof.
  intros Hty Hsh Hnd Hsep.
  split; [intros m y x; apply Plan_Eval_MakePlan|].
  destruct (Eval_kMapper_run SV dst e Hty) as (cmd & Hcmd & Hrun).
  specialize (Hrun s). rewrite Hsh in Hrun.
  eexists cmd, _. split; [exact Hcmd|]. split; [exact Hrun|]. simpl.
  split; [apply MapPlan_fold_writes_value|].
  intros c Hc. rewrite <- Plan_Eval_MakePlan.
  apply MapPlan_fold_final; [exact Hnd| |exact Hc].
  intros c1 c2 a H1 H2 Ha ->.
  rewrite Plan_cells_MakePlan in Ha.
  apply list_elem_of_fmap in Ha as (t & Heq & Ht).
  by apply (Hsep t c1 c2).
Qed.

(** ** Repeatability *)

(** Two runs of a step from memories with the same inputs write the same
    value. *)
Lemma MapPlan_step_agree_at SV dst p m1 m2 c :
  (∀ a, a ∈ cells_at p c.1 c.2 → m1 a = m2 a) →
  (∀ v, SV (m1 (cell dst c.1 c.2)) v = SV (m2 (cell dst c.1 c.2)) v) →
  step SV dst p m1 c (cell dst c.1 c.2) = step SV dst p m2 c (cell dst c.1 c.2).
Proof.
  intros Hcells Hsv. rewrite !MapPlan_step_at.
  rewrite (Plan_Eval_agree p c.1 c.2 m1 m2 Hcells). apply Hsv.
Qed.

(** The executor keeps two memories with the same inputs in agreement: the
    inputs stay the same, cells that agreed still agree, and the written
    cells agree. *)
Lemma MapPlan_fold_agree SV dst p (L l : list (Z * Z)) m1 m2 :
  (∀ c, c ∈ l → c ∈ L) →
  (∀ c, c ∈ L →
     (∀ a, a ∈ cells_at p c.1 c.2 → m1 a = m2 a)
     ∧ (∀ v, SV (m1 (cell dst c.1 c.2)) v = SV (m2 (cell dst c.1 c.2)) v)) →
  ∀ a, m1 a = m2 a ∨ a ∈ (λ c, cell dst c.1 c.2) <$> l →
       foldl (step SV dst p) m1 l a = foldl (step SV dst p) m2 l a.
Proof.
  revert m1 m2.
  induction l as [|c0 l IH]; intros m1 m2 Hsub Hin a Ha; simpl.
  { destruct Ha as [Ha|Ha]; [exact Ha|by apply elem_of_nil in Ha]. }
  assert (c0 ∈ L) as Hc0 by (apply Hsub, list_elem_of_here).
  destruct (Hin c0 Hc0) as [Hcells Hsv].
  pose proof (MapPlan_step_agree_at SV dst p m1 m2 c0 Hcells Hsv) as Hat.
  assert (∀ b, m1 b = m2 b → step SV dst p m1 c0 b = step SV dst p m2 c0 b)
    as Hkeep.
  { intros b Hb. destruct (decide (b = cell dst c0.1 c0.2)) as [->|Hne].
    - exact Hat.
    - by rewrite !MapPlan_step_other. }
  apply IH.
  - intros c Hc. apply Hsub. by apply list_elem_of_further.
  - intros c Hc. destruct (Hin c Hc) as [Hcs Hs]. split.
    + intros b Hb. apply Hkeep. by apply Hcs.
    + intros v. destruct (decide (cell dst c.1 c.2 = cell dst c0.1 c0.2))
        as [Heq|Hne].
      * rewrite Heq. by rewrite Hat.
      * rewrite !MapPlan_step_other by exact Hne. apply Hs.
  - rewrite fmap_cons, elem_of_cons in Ha.
    destruct Ha as [Ha|[->|Ha]]; [left; by apply Hkeep|left; exact Hat|by right].
Qed.

(** C9: evaluating a plan at a coordinate in two memories that hold the
    same values in the cells of the plan yields the same value, and a step
    of the executor changes no cell but the destination cell it writes;
    consequently two runs of the same elementwise evaluation, from states
    whose inputs are the same, complete with the same contents in every
    destination cell. *)
Theorem Plan_pure_Eval_repeatable SV dst e p y x m m' s1 s2 :
  (∀ a, a ∈ cells_at p y x → m a = m' a) →
  TypeCheck_kPass (device dst) (dim dst) e = true →
  ShapeCheck_Check e (shape dst) = true →
  inputs_unchanged index_bits MapPlan_coords SV dst (MakePlan e)
    (mem s1) (mem s2) →
  Eval_at m p y x = Eval_at m' p y x
  ∧ (∀ c a, a ≠ cell dst c.1 c.2 → step SV dst p m c a = m a)
  ∧ ∃ cmd s1' s2',
      Eval SV dst (Arg_kMapper e) = Some cmd
      ∧ cmd s1 = Done s1' ∧ cmd s2 = Done s2'
      ∧ ∀ c, c ∈ MapPlan_coords dst →
          mem s1' (cell dst c.1 c.2) = mem s2' (cell dst c.1 c.2).
Proof.
  intros Hag Hty Hsh Hin.
  split; [by apply Plan_Eval_agree|].
  split; [intros c a; apply MapPlan_step_other|].
  destruct (Eval_kMapper_run SV dst e Hty) as (cmd & Hcmd & Hrun).
  pose proof (Hrun s1) as H1. pose proof (Hrun s2) as H2.
  rewrite Hsh in H1, H2.
  eexists cmd, _, _. split; [exact Hcmd|].
  split; [exact H1|]. split; [exact H2|]. simpl.
  intros c Hc.
  apply (MapPlan_fold_agree SV dst (MakePlan e) (MapPlan_coords dst)).
  - auto.
  - exact Hin.
  - right. by apply (list_elem_of_fmap_2 (λ c, cell dst c.1 c.2)).
Qed.

(** ** Rejections and errors of the elementwise path *)

Lemma TypeCheck_kPass_false_leaves (Dev : Device) (d : Z) e :
  TypeCheck_kPass Dev d e = false
  ↔ Exists (λ t, device t ≠ Dev ∨ dim t ≠ d) (Exp_tensors e).
Proof.
  induction e as [k|t|op a IHa k|op a IHa b IHb k]; simpl.
  - rewrite Exists_nil. split; [discriminate|tauto].
  - rewrite bool_decide_eq_false, Exists_cons, Exists_nil.
    rewrite not_and_l. tauto.
  - exact IHa.
  - rewrite andb_false_iff, Exists_app, IHa, IHb. tauto.
Qed.

Lemma ShapeCheck_Check_false_leaves e (sh : Shape) :
  ShapeCheck_Check e sh = false
  ↔ Exists (λ t, Shape_eq (shape t) sh = false) (Exp_tensors e).
Proof.
  induction e as [k|t|op a IHa k|op a IHa b IHb k]; simpl.
  - rewrite Exists_nil. split; [discriminate|tauto].
  - rewrite Exists_cons, Exists_nil. tauto.
  - exact IHa.
  - rewrite andb_false_iff, Exists_app, IHa, IHb. tauto.
Qed.

Lemma Eval_kMapper_None SV dst e :
  Eval_kMapper SV dst e = None
  ↔ TypeCheck_kPass (device dst) (dim dst) e = false.
Proof.
  unfold ExpEngine_Eval_kMapper.
  destruct (TypeCheck_kPass _ _ _); split; done.
Qed.

(** X1: an elementwise evaluation is rejected statically exactly when
    some tensor leaf is on another device or of another rank than the
    destination, through either elementwise overload. *)
Theorem Eval_rejected_iff_leaf_of_other_type SV dst e :
  (Eval SV dst (Arg_kMapper e) = None
   ↔ Exists (λ t, device t ≠ device dst ∨ dim t ≠ dim dst) (Exp_tensors e))
  ∧ (Eval SV dst (Arg_kContainer e) = None
     ↔ Exists (λ t, device t ≠ device dst ∨ dim t ≠ dim dst) (Exp_tensors e)).
Proof.
  split; simpl.
  - by rewrite Eval_kMapper_None, TypeCheck_kPass_false_leaves.
  - by rewrite kContainer_and_kMapper_same, Eval_kMapper_None,
      TypeCheck_kPass_false_leaves.
Qed.

(** X2: the expression engine raises one error of its own, the shape
    error: a fatal outcome of an elementwise overload is the shape error,
    raised with the memory as it was on entry, for an expression one of
    whose tensor leaves has a shape other than the destination's; a fatal
    outcome of the dot overload is a crash of the backend call, with the
    backend's message and the memory the backend left. *)
Theorem Eval_fatal_is_shape_or_backend_error SV dst (a : EvalArg real_t)
    cmd s msg s' :
  Eval SV dst a = Some cmd →
  cmd s = Fatal msg s' →
  (msg = IncompatibleShape
   ∧ mem s' = mem s
   ∧ ∃ e t, (a = Arg_kMapper e ∨ a = Arg_kContainer e)
            ∧ t ∈ Exp_tensors e
            ∧ Shape_eq (shape t) (shape dst) = false)
  ∨ (∃ d g, a = Arg_DotExp d
            ∧ cblas_sgemm g (mem s) = Crashed msg (mem s')
            ∧ calls s' = calls s ++ [Call_cblas_sgemm g]).
Proof.
  intros Hcmd Hfatal.
  assert (∀ e, Eval_kMapper SV dst e = Some cmd →
               msg = IncompatibleShape ∧ mem s' = mem s
               ∧ ∃ t, t ∈ Exp_tensors e
                      ∧ Shape_eq (shape t) (shape dst) = false) as Hmap.
  { intros e He.
    destruct (TypeCheck_kPass (device dst) (dim dst) e) eqn:Hty.
    2:{ apply (Eval_kMapper_None SV) in Hty. congruence. }
    destruct (Eval_kMapper_run SV dst e Hty) as (cmd' & Hcmd' & Hrun).
    assert (cmd' = cmd) as -> by congruence.
    rewrite Hrun in Hfatal.
    destruct (ShapeCheck_Check e (shape dst)) eqn:Hsh; [discriminate|].
    injection Hfatal as <- <-. split; [reflexivity|]. split; [reflexivity|].
    apply ShapeCheck_Check_false_leaves, Exists_exists in Hsh.
    exact Hsh. }
  destruct a as [e|e|d]; simpl in Hcmd.
  - left. destruct (Hmap e Hcmd) as (Hm & Hmem & t & Ht & Hne).
    split; [exact Hm|]. split; [exact Hmem|]. exists e, t. auto.
  - left. rewrite kContainer_and_kMapper_same in Hcmd.
    destruct (Hmap e Hcmd) as (Hm & Hmem & t & Ht & Hne).
    split; [exact Hm|]. split; [exact Hmem|]. exists e, t. auto.
  - right. unfold ExpEngine_Eval_DotExp in Hcmd.
    case_bool_decide; [|discriminate].
    destruct (DotEngine_Eval_fatal _ _ _ _ _ _ _ _ _ _ cmd s msg s' Hcmd Hfatal)
      as (g & Hg & Hcalls).
    exists d, g. auto.
Qed.

(** X3: an expression without tensor leaves (scalars under maps) passes
    both checks against every destination, so its evaluation always
    completes; its plan yields one value, the same at every coordinate and
    in every memory. *)
Theorem Eval_without_tensors_completes SV dst e s :
  Exp_tensors e = [] →
  (∃ cmd s', Eval SV dst (Arg_kMapper e) = Some cmd ∧ cmd s = Done s')
  ∧ ∀ m m' y x y' x',
      Eval_at m (MakePlan e) y x = Eval_at m' (MakePlan e) y' x'.
Proof.
  intros Hnil. split.
  - assert (TypeCheck_kPass (device dst) (dim dst) e = true) as Hty.
    { apply TypeCheck_kPass_leaves. rewrite Hnil. constructor. }
    assert (ShapeCheck_Check e (shape dst) = true) as Hsh.
    { apply ShapeCheck_Check_leaves. rewrite Hnil. constructor. }
    destruct (Eval_kMapper_run SV dst e Hty) as (cmd & Hcmd & Hrun).
    specialize (Hrun s). rewrite Hsh in Hrun. eauto.
  - intros m m' y x y' x'. clear SV dst s.
    induction e as [k|t|op a IHa k|op a IHa b IHb k]; simpl in *.
    + reflexivity.
    + discriminate.
    + f_equal. by apply IHa.
    + apply app_eq_nil in Hnil as [Ha Hb]. f_equal; auto.
Qed.

(** X4: an expression with at least one tensor leaf passes the static
    check for at most one device and rank, and the shape check for at most
    one list of extents. *)
Theorem checks_determine_target (Dev Dev' : Device) (d d' : Z)
    (sh sh' : Shape) e :
  Exp_tensors e ≠ [] →
  (TypeCheck_kPass Dev d e = true → TypeCheck_kPass Dev' d' e = true →
     Dev = Dev' ∧ d = d')
  ∧ (ShapeCheck_Check e sh = true → ShapeCheck_Check e sh' = true →
     shape_ sh = shape_ sh').
Proof.
  intros Hne.
  destruct (Exp_tensors e) as [|t l] eqn:Hl; [done|]. split.
  - intros H1%TypeCheck_kPass_leaves H2%TypeCheck_kPass_leaves.
    rewrite Hl in H1, H2.
    apply Forall_cons_1 in H1 as [[<- <-] _].
    apply Forall_cons_1 in H2 as [[<- <-] _]. done.
  - intros H1%ShapeCheck_Check_leaves H2%ShapeCheck_Check_leaves.
    rewrite Hl in H1, H2.
    apply Forall_cons_1 in H1 as [H1%Shape_eq_true _].
    apply Forall_cons_1 in H2 as [H2%Shape_eq_true _]. congruence.
Qed.

(** ** Addressing *)

(** X5: the value a fused plan yields at [(y, x)] depends on the memory
    only through the cells of the expression's tensor leaves at that same
    coordinate: no other element of any operand, and no other memory, is
    consulted. *)
Theorem MakePlan_reads_leaves_at_coordinate e y x m m' :
  (∀ t, t ∈ Exp_tensors e → m (cell t y x) = m' (cell t y x)) →
  Eval_at m (MakePlan e) y x = Eval_at m' (MakePlan e) y x.
Proof.
  intros Hag. apply Plan_Eval_agree. intros a Ha.
  rewrite Plan_cells_MakePlan in Ha.
  apply list_elem_of_fmap in Ha as (t & -> & Ht). by apply Hag.
Qed.

(** X6: for a coordinate whose offset fits in [index_t], the plan of a
    tensor reads the cell at offset [y * stride + x] from the base, and two
    such coordinates with columns below the stride read the same cell only
    when they are the same coordinate. *)
Theorem Plan_Tensor_in_range m (base stride : Z) y x y' x' :
  0 ≤ y → 0 ≤ x < stride → y * stride + x < 2 ^ index_bits →
  0 ≤ y' → 0 ≤ x' < stride → y' * stride + x' < 2 ^ index_bits →
  Plan_Eval index_bits m (Plan_Tensor base stride) y x
  = m (base + (y * stride + x))
  ∧ (Plan_cells index_bits (Plan_Tensor (real_t:=real_t) base stride) y x
     = Plan_cells index_bits (Plan_Tensor (real_t:=real_t) base stride) y' x'
     → y = y' ∧ x = x').
Proof.
  intros Hy Hx Hlt Hy' Hx' Hlt'.
  assert (∀ v u, 0 ≤ v → 0 ≤ u < stride → v * stride + u < 2 ^ index_bits →
            index_add index_bits (index_mul index_bits v stride) u
            = v * stride + u) as Hsmall.
  { intros v u Hv Hu Hvu. unfold index_add, index_mul, index_wrap.
    rewrite (Z.mod_small (v * stride)) by nia.
    apply Z.mod_small. nia. }
  simpl. unfold deref. rewrite !Hsmall by assumption.
  split; [reflexivity|].
  intros Heq. assert (y * stride + x = y' * stride + x') as Hoff.
  { injection Heq. lia. }
  assert (y = y') as -> by nia. split; [reflexivity|lia].
Qed.

(** X7: the index of a tensor plan is computed in [index_t]: the cell read
    is the one at offset [(y * stride + x) mod 2^index_bits], so a
    coordinate [2^index_bits] columns further reads the same cell. *)
Theorem Plan_Tensor_index_wraps m (base stride : Z) y x :
  Plan_Eval index_bits m (Plan_Tensor base stride) y x
  = m (base + (y * stride + x) mod 2 ^ index_bits)
  ∧ Plan_Eval index_bits m (Plan_Tensor base stride) y (x + 2 ^ index_bits)
    = Plan_Eval index_bits m (Plan_Tensor base stride) y x.
Proof.
  assert (∀ u, index_add index_bits (index_mul index_bits y stride) u
               = (y * stride + u) mod 2 ^ index_bits) as Hidx.
  { intros u. unfold index_add, index_mul, index_wrap.
    apply Zplus_mod_idemp_l. }
  simpl. unfold deref. rewrite !Hidx. split; [reflexivity|].
  f_equal. f_equal.
  replace (y * stride + (x + 2 ^ index_bits))
    with (y * stride + x + 1 * 2 ^ index_bits) by lia.
  apply Z_mod_plus_full.
Qed.

(** ** Composition and aliasing of elementwise evaluation *)

Lemma NoDup_fmap_elem_inj {A B : Type} (f : A → B) (l : list A) a b :
  NoDup (f <$> l) → a ∈ l → b ∈ l → f a = f b → a = b.
Proof.
  induction l as [|h l IH]; intros Hnd Ha Hb Hf.
  { by apply elem_of_nil in Ha. }
  rewrite fmap_cons in Hnd. apply NoDup_cons in Hnd as [Hh Hnd].
  apply elem_of_cons in Ha as [->|Ha]; apply elem_of_cons in Hb as [->|Hb].
  - reflexivity.
  - exfalso. apply Hh. rewrite Hf. by apply list_elem_of_fmap_2.
  - exfalso. apply Hh. rewrite <- Hf. by apply list_elem_of_fmap_2.
  - by apply IH.
Qed.

(** X8: an expression may read its own destination.  When the visited
    coordinates have distinct destination cells and every tensor leaf either
    shares the destination's base pointer and stride or has no cell in
    common with the destination, the evaluation leaves in every destination
    cell the saver's combination of its initial content and the value of the
    expression in the initial memory. *)
Theorem Eval_in_place SV dst e s :
  TypeCheck_kPass (device dst) (dim dst) e = true →
  ShapeCheck_Check e (shape dst) = true →
  NoDup ((λ c, cell dst c.1 c.2) <$> MapPlan_coords dst) →
  (∀ t, t ∈ Exp_tensors e →
     (dptr t = dptr dst ∧ stride_ (shape t) = stride_ (shape dst))
     ∨ (∀ c c', c ∈ MapPlan_coords dst → c' ∈ MapPlan_coords dst →
                cell t c.1 c.2 ≠ cell dst c'.1 c'.2)) →
  ∃ cmd s',
    Eval SV dst (Arg_kMapper e) = Some cmd
    ∧ cmd s = Done s'
    ∧ ∀ c, c ∈ MapPlan_coords dst →
        mem s' (cell dst c.1 c.2)
        = SV (mem s (cell dst c.1 c.2)) (value (mem s) e c.1 c.2).
Proof.
  intros Hty Hsh Hnd Hleaf.
  destruct (Eval_kMapper_run SV dst e Hty) as (cmd & Hcmd & Hrun).
  specialize (Hrun s). rewrite Hsh in Hrun.
  eexists cmd, _. split; [exact Hcmd|]. split; [exact Hrun|]. simpl.
  intros c Hc. rewrite <- Plan_Eval_MakePlan.
  apply MapPlan_fold_final; [exact Hnd| |exact Hc].
  intros c1 c2 a H1 H2 Ha ->.
  rewrite Plan_cells_MakePlan in Ha.
  apply list_elem_of_fmap in Ha as (t & Heq & Ht).
  destruct (Hleaf t Ht) as [[Hp Hs]|Hdisj].
  - apply (NoDup_fmap_elem_inj (λ c, cell dst c.1 c.2) (MapPlan_coords dst));
      [exact Hnd|exact H1|exact H2|].
    rewrite Heq. unfold Tensor_cell. by rewrite Hp, Hs.
  - exfalso. by apply (Hdisj c1 c2 H1 H2).
Qed.

(** Plans that agree everywhere drive the executor alike. *)
Lemma MapPlan_fold_ext SV dst p1 p2 (l : list (Z * Z)) m :
  (∀ m y x, Eval_at m p1 y x = Eval_at m p2 y x) →
  foldl (step SV dst p1) m l = foldl (step SV dst p2) m l.
Proof.
  intros Hplan. revert m.
  induction l as [|c l IH]; intros m; simpl; [reflexivity|].
  rewrite <- IH. f_equal. unfold MapPlan_step. by rewrite Hplan.
Qed.

(** X9: two expressions that have the same value at every coordinate in
    every memory (for instance the two sides of a distributive law of their
    operators) have plans that agree everywhere, and their evaluations into
    the same destination from the same state leave the same memory,
    whatever the visiting order and the aliasing. *)
Theorem Eval_respects_equal_values SV dst e1 e2 s :
  (∀ m y x, value m e1 y x = value m e2 y x) →
  TypeCheck_kPass (device dst) (dim dst) e1 = true →
  TypeCheck_kPass (device dst) (dim dst) e2 = true →
  ShapeCheck_Check e1 (shape dst) = true →
  ShapeCheck_Check e2 (shape dst) = true →
  (∀ m y x, Eval_at m (MakePlan e1) y x = Eval_at m (MakePlan e2) y x)
  ∧ ∃ cmd1 cmd2 s1 s2,
      Eval SV dst (Arg_kMapper e1) = Some cmd1
      ∧ Eval SV dst (Arg_kMapper e2) = Some cmd2
      ∧ cmd1 s = Done s1 ∧ cmd2 s = Done s2
      ∧ mem s1 = mem s2.
Proof.
  intros Hval Hty1 Hty2 Hsh1 Hsh2.
  assert (∀ m y x, Eval_at m (MakePlan e1) y x = Eval_at m (MakePlan e2) y x)
    as Hplan.
  { intros m y x. by rewrite !Plan_Eval_MakePlan. }
  split; [exact Hplan|].
  destruct (Eval_kMapper_run SV dst e1 Hty1) as (cmd1 & Hcmd1 & Hrun1).
  destruct (Eval_kMapper_run SV dst e2 Hty2) as (cmd2 & Hcmd2 & Hrun2).
  specialize (Hrun1 s). specialize (Hrun2 s).
  rewrite Hsh1 in Hrun1. rewrite Hsh2 in Hrun2.
  eexists cmd1, cmd2, _, _.
  split; [exact Hcmd1|]. split; [exact Hcmd2|].
  split; [exact Hrun1|]. split; [exact Hrun2|]. simpl.
  by apply MapPlan_fold_ext.
Qed.

(** X10: with a saver that ignores the old cell (plain assignment) and
    tensor leaves that share no cell with the destination, evaluating a
    second time changes nothing: the memory after the second run is the
    memory after the first, in the destination and everywhere else. *)
Theorem Eval_assign_idempotent SV dst e cmd s s1 s2 :
  (∀ u v w, SV u w = SV v w) →
  (∀ t c c', t ∈ Exp_tensors e →
             c ∈ MapPlan_coords dst → c' ∈ MapPlan_coords dst →
             cell t c.1 c.2 ≠ cell dst c'.1 c'.2) →
  Eval SV dst (Arg_kMapper e) = Some cmd →
  cmd s = Done s1 →
  cmd s1 = Done s2 →
  (∀ c, c ∈ MapPlan_coords dst →
        mem s2 (cell dst c.1 c.2) = mem s1 (cell dst c.1 c.2))
  ∧ (∀ a, a ∉ (λ c, cell dst c.1 c.2) <$> MapPlan_coords dst →
          mem s2 a = mem s1 a).
Proof.
  intros Hsv Hdisj Hcmd H1 H2. simpl in Hcmd.
  destruct (TypeCheck_kPass (device dst) (dim dst) e) eqn:Hty.
  2:{ apply (Eval_kMapper_None SV) in Hty. congruence. }
  destruct (Eval_kMapper_run SV dst e Hty) as (cmd' & Hcmd' & Hrun).
  assert (cmd' = cmd) as -> by congruence.
  rewrite Hrun in H1, H2.
  destruct (ShapeCheck_Check e (shape dst)); [|discriminate].
  injection H1 as <-. injection H2 as <-. simpl.
  set (m1 := foldl (step SV dst (MakePlan e)) (mem s) (MapPlan_coords dst)).
  split.
  - intros c Hc. symmetry.
    apply (MapPlan_fold_agree SV dst (MakePlan e) (MapPlan_coords dst)).
    + auto.
    + intros c0 Hc0. split; [|intros v; apply Hsv].
      intros a Ha. symmetry. apply MapPlan_fold_frame.
      intros Hin. apply list_elem_of_fmap in Hin as (c' & -> & Hc').
      rewrite Plan_cells_MakePlan in Ha.
      apply list_elem_of_fmap in Ha as (t & Heq & Ht).
      by apply (Hdisj t c0 c' Ht Hc0 Hc').
    + right. by apply (list_elem_of_fmap_2 (λ c, cell dst c.1 c.2)).
  - intros a Ha. by apply MapPlan_fold_frame.
Qed.

(** ** More on the dot engine *)

(** X11: the dot overload ignores the saver.  For the host matrix-matrix
    form, whatever the saver (assigning or accumulating), the engine is the
    same program: one call of the backend with the expression's scale as
    the multiply coefficient and zero as the accumulate coefficient on the
    destination's buffer. *)
Theorem DotExp_ignores_saver SV SV' dst (exp : DotExp real_t) s :
  device dst = cpu → device (lhs_ exp) = cpu → device (rhs_ exp) = cpu →
  dim dst = 2 → dim (lhs_ exp) = 2 → dim (rhs_ exp) = 2 →
  Eval SV dst (Arg_DotExp exp) = Eval SV' dst (Arg_DotExp exp)
  ∧ ∃ cmd g,
      Eval SV dst (Arg_DotExp exp) = Some cmd
      ∧ cmd s = call_cblas_sgemm cblas_sgemm g s
      ∧ sgemm_alpha g = scale_ exp
      ∧ sgemm_beta g = real_zero
      ∧ sgemm_C g = dptr dst.
Proof.
  intros Hd Hl Hr Hdd Hld Hrd. split; [reflexivity|].
  destruct (DotEngine_cpu_2_2_2_run (ltrans exp) (rtrans exp) dst
              (lhs_ exp) (rhs_ exp) (scale_ exp) s) as (g & Hrun & Hg).
  eexists _, g. split.
  - simpl. unfold ExpEngine_Eval_DotExp.
    rewrite bool_decide_eq_true_2 by (by rewrite Hl, Hr, Hd).
    rewrite Hd, Hdd, Hld, Hrd. reflexivity.
  - split; [exact Hrun|]. by subst g.
Qed.

(** X12: a dot engine exists exactly for the rank triples (2,2,2), for
    (1,1,2) with an untransposed left operand, and for (2,1,1) with the left
    operand transposed and the right one not; the answer is the same on the
    host and on the accelerator. *)
Theorem DotEngine_Eval_supported (Dev : Device) (ddim ldim rdim : Z)
    (lt rt : bool) dst lhs rhs (scale : real_t) :
  is_Some (Dot_Eval Dev ddim ldim rdim lt rt dst lhs rhs scale)
  ↔ (ddim = 2 ∧ ldim = 2 ∧ rdim = 2)
    ∨ (ddim = 1 ∧ ldim = 1 ∧ rdim = 2 ∧ lt = false)
    ∨ (ddim = 2 ∧ ldim = 1 ∧ rdim = 1 ∧ lt = true ∧ rt = false).
Proof.
  split.
  - intros [cmd Hcmd]. unfold DotEngine_Eval in Hcmd.
    repeat case_match; simplify_eq; auto 10.
  - intros [(-> & -> & ->)|[(-> & -> & -> & ->)|(-> & -> & -> & -> & ->)]];
      destruct Dev; simpl; try destruct lt; try destruct rt; eauto.
Qed.

(** X13: for operands whose extents [index_t] and [int] represent, the
    host matrix-matrix kernel passes as an operand's leading dimension the
    row count of the stored operand exactly when the operand is not
    transposed or is square; the destination's leading dimension and [lda]
    are both the [M] of the call, whatever the flags and the extents. *)
Theorem DotEngine_cpu_leading_dimension_is_stored_rows_iff (lt rt : bool)
    dst lhs rhs (scale : real_t) s :
  fits (rows lhs) → fits (cols lhs) → fits (rows rhs) → fits (cols rhs) →
  ∃ g, Dot_cpu_2_2_2 lt rt dst lhs rhs scale s
       = call_cblas_sgemm cblas_sgemm g s
     ∧ (sgemm_lda g = rows lhs ↔ lt = false ∨ rows lhs = cols lhs)
     ∧ (sgemm_ldb g = rows rhs ↔ rt = false ∨ rows rhs = cols rhs)
     ∧ sgemm_lda g = sgemm_M g
     ∧ sgemm_ldc g = sgemm_M g.
Proof.
  intros Hlr Hlc Hrr Hrc.
  destruct (DotEngine_cpu_2_2_2_run lt rt dst lhs rhs scale s) as (g & Hrun & Hg).
  exists g. split; [exact Hrun|]. subst g. simpl. unfold op_extents.
  split; [|split; [|by split]].
  - destruct lt; simpl; rewrite index_as_int_fits by assumption.
    + split; [intros ->; by right|intros [?|?]; [discriminate|done]].
    + split; [by left|done].
  - destruct rt; simpl; rewrite index_as_int_fits by assumption.
    + split; [intros ->; by right|intros [?|?]; [discriminate|done]].
    + split; [by left|done].
Qed.

End Properties.

(** * Concrete runs *)

Lemma row_major_ex_dst : row_major ex_dst = [(0, 0); (0, 1); (1, 0); (1, 1)].
Proof. reflexivity. Qed.

(** The scenario [dst = a + b * 2.0] with [a] all ones and [b] all twos:
    the destination ends as [[5,5],[5,5]], the operands are untouched. *)
Example elementwise_scenario :
  (mem ex_state_after <$> [8; 9; 10; 11]) = [5; 5; 5; 5]
  ∧ (mem ex_state_after <$> [0; 1; 2; 3]) = [1; 1; 1; 1]
  ∧ (mem ex_state_after <$> [4; 5; 6; 7]) = [2; 2; 2; 2]
  ∧ calls ex_state_after
    = [Call_ShapeCheck ex_exp shape_2x2; Call_MakePlan ex_exp;
       Call_MapPlan ex_dst (MakePlan ex_exp)].
Proof. repeat split. Qed.

(** With the accumulating saver the same call adds to the destination. *)
Example elementwise_scenario_plusto :
  (λ cmd : Cmd Z, mem (match cmd ex_state_after with
                       | Done s | Fatal _ s => s end) <$> [8; 9; 10; 11])
    <$> ex_Eval plusto ex_dst (Arg_kMapper ex_exp)
  = Some [10; 10; 10; 10].
Proof. reflexivity. Qed.

(** An operand on another device, or of another rank, is rejected
    statically. *)
Example static_check_rejects :
  ex_Eval saveto ex_dst (Arg_kMapper (TensorExp (MkTensor gpu 2 0 shape_2x2)))
  = None
  ∧ ex_Eval saveto ex_dst (Arg_kMapper (TensorExp ex_vec)) = None.
Proof. split; reflexivity. Qed.

(** A combination of ranks without a specialisation has no dot engine. *)
Example DotEngine_no_specialisation :
  DotEngine_Eval 32 0 32 ex_sgemm cpu 2 1 2 false false ex_dst ex_vec ex_b 1
  = None.
Proof. reflexivity. Qed.

(** An extent above the range of a 32-bit [int] reaches the backend
    negative: 3000000000 rows arrive as [M = -1294967296]. *)
Example DotEngine_cpu_extent_beyond_int :
  ∃ g, DotEngine_cpu_2_2_2 32 0 32 ex_sgemm false false ex_dst ex_huge ex_b 1
         ex_state
       = Done {| mem := ex_mem; calls := [Call_cblas_sgemm g] |}
     ∧ rows ex_huge = 3000000000
     ∧ sgemm_M g = -1294967296
     ∧ sgemm_lda g = -1294967296.
Proof. eexists. repeat split. Qed.

(** A backend that rejects the call ends the evaluation with its own
    error; the engine has made no check before. *)
Example DotEngine_cpu_backend_crash :
  DotEngine_cpu_2_2_2 32 0 32 ex_strict_sgemm false false ex_dst ex_a ex_b 1
    ex_state
  = Fatal "lda"
      {| mem := ex_mem;
         calls := [Call_cblas_sgemm
                     (MkGemmArgs CblasColMajor CblasNoTrans CblasNoTrans
                        2 2 2 1 0 2 4 2 0 8 2)] |}.
Proof. reflexivity. Qed.

(** C5 (as the code behaves): with the left operand transposed and stored
    with 2 rows and 3 columns, the host matrix-matrix kernel passes 3, the
    column count of the stored operand, as its leading dimension, not its
    row count 2; likewise for a transposed right operand. *)
Theorem DotEngine_cpu_lda_transposed :
  ∃ g, DotEngine_cpu_2_2_2 32 0 32 ex_sgemm true true ex_dst ex_lhs_2x3
         ex_lhs_2x3 1
         ex_state
       = Done {| mem := ex_mem; calls := [Call_cblas_sgemm g] |}
     ∧ rows ex_lhs_2x3 = 2
     ∧ sgemm_lda g = 3
     ∧ sgemm_ldb g = 3.
Proof. eexists. repeat split. Qed.

(** ** Instances of the conditional theorems *)

Lemma MakePlan_computes_Exp_value_witness :
  (∀ m y x, Plan_Eval 32 m (MakePlan ex_exp) y x = Exp_value 32 m ex_exp y x)
  ∧ ∃ cmd s',
      ex_Eval saveto ex_dst (Arg_kMapper ex_exp) = Some cmd
      ∧ cmd ex_state = Done s'
      ∧ mem s' = foldl (Exp_write 32 saveto ex_dst ex_exp) ex_mem
                   (row_major ex_dst)
      ∧ ∀ c, c ∈ row_major ex_dst →
          mem s' (Tensor_cell 32 ex_dst c.1 c.2)
          = saveto (ex_mem (Tensor_cell 32 ex_dst c.1 c.2))
              (Exp_value 32 ex_mem ex_exp c.1 c.2).
Proof.
  apply (MakePlan_computes_Exp_value 32 0 row_major 32 ex_sgemm saveto ex_dst
           ex_exp ex_state).
  - reflexivity.
  - reflexivity.
  - rewrite row_major_ex_dst.
    apply (bool_decide_unpack _). vm_compute. exact I.
  - intros t c c' Ht Hc Hc'. rewrite row_major_ex_dst in Hc, Hc'. simpl in Ht.
    repeat (apply elem_of_cons in Ht as [->|Ht]);
      [| |by apply elem_of_nil in Ht];
      (repeat (apply elem_of_cons in Hc as [->|Hc]);
         [| | | |by apply elem_of_nil in Hc]);
      (repeat (apply elem_of_cons in Hc' as [->|Hc']);
         [| | | |by apply elem_of_nil in Hc']);
      vm_compute; intros Heq; discriminate Heq.
Defined.

Lemma Eval_shape_mismatch_is_fatal_witness :
  ∃ cmd, ex_Eval saveto ex_dst_3x4 (Arg_kMapper ex_bad_exp) = Some cmd
         ∧ cmd ex_state
           = Fatal IncompatibleShape
               {| mem := ex_mem;
                  calls := [] ++ [Call_ShapeCheck ex_bad_exp shape_3x4] |}.
Proof.
  apply (Eval_shape_mismatch_is_fatal 32 0 row_major 32 ex_sgemm saveto
           ex_dst_3x4 ex_bad_exp ex_src_3x5 ex_state (Arg_kMapper ex_bad_exp)).
  - reflexivity.
  - simpl. apply list_elem_of_further, list_elem_of_here.
  - reflexivity.
  - left. reflexivity.
Defined.

Lemma DotExp_forwarded_to_DotEngine_witness :
  ex_Eval saveto ex_dst (Arg_DotExp ex_dot)
  = DotEngine_Eval 32 0 32 ex_sgemm cpu 2 2 2 false true ex_dst ex_a ex_b 3
  ∧ ∀ cmd s, ex_Eval saveto ex_dst (Arg_DotExp ex_dot) = Some cmd →
      ∃ new, calls (Outcome_state (cmd s)) = calls s ++ new
             ∧ Forall (λ k : Call Z, Call_is_elementwise k = false) new.
Proof.
  apply (DotExp_forwarded_to_DotEngine 32 0 row_major 32 ex_sgemm saveto ex_dst
           ex_dot); reflexivity.
Defined.

Lemma Plan_pure_Eval_repeatable_witness :
  Plan_Eval 32 ex_mem (MakePlan ex_exp) 0 1
  = Plan_Eval 32 (mem ex_state_after) (MakePlan ex_exp) 0 1
  ∧ (∀ c a, a ≠ Tensor_cell 32 ex_dst c.1 c.2 →
            MapPlan_step 32 saveto ex_dst (MakePlan ex_exp) ex_mem c a
            = ex_mem a)
  ∧ ∃ cmd s1' s2',
      ex_Eval saveto ex_dst (Arg_kMapper ex_exp) = Some cmd
      ∧ cmd ex_state = Done s1' ∧ cmd ex_state_after = Done s2'
      ∧ ∀ c, c ∈ row_major ex_dst →
          mem s1' (Tensor_cell 32 ex_dst c.1 c.2)
          = mem s2' (Tensor_cell 32 ex_dst c.1 c.2).
Proof.
  apply (Plan_pure_Eval_repeatable 32 0 row_major 32 ex_sgemm saveto ex_dst
           ex_exp (MakePlan ex_exp) 0 1 ex_mem (mem ex_state_after)
           ex_state ex_state_after).
  - intros a Ha. simpl in Ha.
    repeat (apply elem_of_cons in Ha as [->|Ha]);
      [| |by apply elem_of_nil in Ha]; reflexivity.
  - reflexivity.
  - reflexivity.
  - intros c Hc. rewrite row_major_ex_dst in Hc.
    split; [|reflexivity]. intros a Ha.
    repeat (apply elem_of_cons in Hc as [->|Hc]);
      [| | | |by apply elem_of_nil in Hc];
      simpl in Ha;
      (repeat (apply elem_of_cons in Ha as [->|Ha]);
         [| |by apply elem_of_nil in Ha]);
      reflexivity.
Defined.

(** ** Instances of the further conditional theorems *)

Lemma Eval_fatal_is_shape_or_backend_error_witness :
  (IncompatibleShape = IncompatibleShape
   ∧ mem {| mem := ex_mem;
            calls := [Call_ShapeCheck ex_bad_exp shape_3x4] |} = mem ex_state
   ∧ ∃ e t, (Arg_kMapper ex_bad_exp = Arg_kMapper e
             ∨ Arg_kMapper ex_bad_exp = Arg_kContainer e)
            ∧ t ∈ Exp_tensors e
            ∧ Shape_eq (shape t) (shape ex_dst_3x4) = false)
  ∨ (∃ d g, Arg_kMapper ex_bad_exp = Arg_DotExp d
            ∧ ex_sgemm g (mem ex_state)
              = Crashed IncompatibleShape
                  (mem {| mem := ex_mem;
                          calls := [Call_ShapeCheck ex_bad_exp shape_3x4] |})
            ∧ calls {| mem := ex_mem;
                       calls := [Call_ShapeCheck ex_bad_exp shape_3x4] |}
              = calls ex_state ++ [Call_cblas_sgemm g]).
Proof.
  eapply (Eval_fatal_is_shape_or_backend_error 32 0 row_major 32 ex_sgemm
            saveto ex_dst_3x4 (Arg_kMapper ex_bad_exp) _ ex_state);
    reflexivity.
Defined.

Lemma Eval_without_tensors_completes_witness :
  (∃ cmd s', ex_Eval saveto ex_dst (Arg_kMapper ex_scalar_exp) = Some cmd
             ∧ cmd ex_state = Done s')
  ∧ ∀ m m' y x y' x',
      Plan_Eval 32 m (MakePlan ex_scalar_exp) y x
      = Plan_Eval 32 m' (MakePlan ex_scalar_exp) y' x'.
Proof.
  apply (Eval_without_tensors_completes 32 0 row_major 32 ex_sgemm saveto
           ex_dst ex_scalar_exp ex_state).
  reflexivity.
Defined.

Lemma checks_determine_target_witness :
  (TypeCheck_kPass cpu 2 ex_exp = true → TypeCheck_kPass cpu 2 ex_exp = true →
     cpu = cpu ∧ 2 = 2)
  ∧ (ShapeCheck_Check ex_exp shape_2x2 = true →
     ShapeCheck_Check ex_exp (MkShape [2; 2] 7) = true →
     shape_ shape_2x2 = shape_ (MkShape [2; 2] 7)).
Proof.
  apply (checks_determine_target cpu cpu 2 2 shape_2x2 (MkShape [2; 2] 7)
           ex_exp).
  discriminate.
Defined.

Lemma MakePlan_reads_leaves_at_coordinate_witness :
  Plan_Eval 32 ex_mem (MakePlan ex_exp) 0 1
  = Plan_Eval 32 (mem ex_state_after) (MakePlan ex_exp) 0 1.
Proof.
  apply (MakePlan_reads_leaves_at_coordinate 32 ex_exp 0 1 ex_mem
           (mem ex_state_after)).
  intros t Ht. simpl in Ht.
  repeat (apply elem_of_cons in Ht as [->|Ht]);
    [| |by apply elem_of_nil in Ht]; reflexivity.
Defined.

Lemma Plan_Tensor_in_range_witness :
  Plan_Eval 32 ex_mem (Plan_Tensor 4 2) 1 1 = ex_mem (4 + (1 * 2 + 1))
  ∧ (Plan_cells 32 (Plan_Tensor (real_t:=Z) 4 2) 1 1
     = Plan_cells 32 (Plan_Tensor (real_t:=Z) 4 2) 0 1
     → 1 = 0 ∧ 1 = 1).
Proof.
  apply (Plan_Tensor_in_range 32 ex_mem 4 2 1 1 0 1);
    first [lia | reflexivity].
Defined.

Lemma Eval_in_place_witness :
  ∃ cmd s',
    ex_Eval saveto ex_dst (Arg_kMapper ex_inplace_exp) = Some cmd
    ∧ cmd ex_state_after = Done s'
    ∧ ∀ c, c ∈ row_major ex_dst →
        mem s' (Tensor_cell 32 ex_dst c.1 c.2)
        = saveto (mem ex_state_after (Tensor_cell 32 ex_dst c.1 c.2))
            (Exp_value 32 (mem ex_state_after) ex_inplace_exp c.1 c.2).
Proof.
  apply (Eval_in_place 32 0 row_major 32 ex_sgemm saveto ex_dst ex_inplace_exp
           ex_state_after).
  - reflexivity.
  - reflexivity.
  - rewrite row_major_ex_dst.
    apply (bool_decide_unpack _). vm_compute. exact I.
  - intros t Ht. simpl in Ht.
    repeat (apply elem_of_cons in Ht as [->|Ht]);
      [left; split; reflexivity| |by apply elem_of_nil in Ht].
    right. intros c c' Hc Hc'. rewrite row_major_ex_dst in Hc, Hc'.
    repeat (apply elem_of_cons in Hc as [->|Hc]);
      [| | | |by apply elem_of_nil in Hc];
      (repeat (apply elem_of_cons in Hc' as [->|Hc']);
         [| | | |by apply elem_of_nil in Hc']);
      vm_compute; intros Heq; discriminate Heq.
Defined.

Lemma Eval_respects_equal_values_witness :
  (∀ m y x, Plan_Eval 32 m (MakePlan ex_factored) y x
            = Plan_Eval 32 m (MakePlan ex_expanded) y x)
  ∧ ∃ cmd1 cmd2 s1 s2,
      ex_Eval saveto ex_dst (Arg_kMapper ex_factored) = Some cmd1
      ∧ ex_Eval saveto ex_dst (Arg_kMapper ex_expanded) = Some cmd2
      ∧ cmd1 ex_state = Done s1 ∧ cmd2 ex_state = Done s2
      ∧ mem s1 = mem s2.
Proof.
  apply (Eval_respects_equal_values 32 0 row_major 32 ex_sgemm saveto ex_dst
           ex_factored ex_expanded ex_state).
  - intros m y x. simpl. apply Z.mul_add_distr_r.
  - reflexivity.
  - reflexivity.
  - reflexivity.
  - reflexivity.
Defined.

Lemma Eval_assign_idempotent_witness :
  (∀ c, c ∈ row_major ex_dst →
        mem (ex_run ex_state_after) (Tensor_cell 32 ex_dst c.1 c.2)
        = mem ex_state_after (Tensor_cell 32 ex_dst c.1 c.2))
  ∧ (∀ a, a ∉ (λ c, Tensor_cell 32 ex_dst c.1 c.2) <$> row_major ex_dst →
          mem (ex_run ex_state_after) a = mem ex_state_after a).
Proof.
  eapply (Eval_assign_idempotent 32 0 row_major 32 ex_sgemm saveto ex_dst
            ex_exp _ ex_state ex_state_after (ex_run ex_state_after)).
  - reflexivity.
  - intros t c c' Ht Hc Hc'. rewrite row_major_ex_dst in Hc, Hc'.
    simpl in Ht.
    repeat (apply elem_of_cons in Ht as [->|Ht]);
      [| |by apply elem_of_nil in Ht];
      (repeat (apply elem_of_cons in Hc as [->|Hc]);
         [| | | |by apply elem_of_nil in Hc]);
      (repeat (apply elem_of_cons in Hc' as [->|Hc']);
         [| | | |by apply elem_of_nil in Hc']);
      vm_compute; intros Heq; discriminate Heq.
  - reflexivity.
  - reflexivity.
  - reflexivity.
Defined.

Lemma DotExp_ignores_saver_witness :
  ex_Eval saveto ex_dst (Arg_DotExp ex_dot)
  = ex_Eval plusto ex_dst (Arg_DotExp ex_dot)
  ∧ ∃ cmd g,
      ex_Eval saveto ex_dst (Arg_DotExp ex_dot) = Some cmd
      ∧ cmd ex_state = call_cblas_sgemm ex_sgemm g ex_state
      ∧ sgemm_alpha g = 3
      ∧ sgemm_beta g = 0
      ∧ sgemm_C g = 8.
Proof.
  apply (DotExp_ignores_saver 32 0 row_major 32 ex_sgemm saveto plusto ex_dst
           ex_dot ex_state); reflexivity.
Defined.


Lemma DotEngine_cpu_leading_dimension_is_stored_rows_iff_witness :
  ∃ g, DotEngine_cpu_2_2_2 32 0 32 ex_sgemm true false ex_dst ex_lhs_2x3
         ex_b 1 ex_state
       = call_cblas_sgemm ex_sgemm g ex_state
     ∧ (sgemm_lda g = rows ex_lhs_2x3
        ↔ true = false ∨ rows ex_lhs_2x3 = cols ex_lhs_2x3)
     ∧ (sgemm_ldb g = rows ex_b ↔ false = false ∨ rows ex_b = cols ex_b)
     ∧ sgemm_lda g = sgemm_M g
     ∧ sgemm_ldc g = sgemm_M g.
Proof.
  apply (DotEngine_cpu_leading_dimension_is_stored_rows_iff 32 0 32 ex_sgemm
           true false ex_dst ex_lhs_2x3 ex_b 1 ex_state);
    repeat split; by vm_compute.
Defined.
